(** * conv.py: rewriting animation-graph [.ron] files to the new node shape

    A shallow embedding of [assets/conv.py] and the properties of its
    specification.

    - Text is a Python [str]: a list of Unicode code points.  The content
      of a file is the text that reading it in text mode yields; decoding
      and newline translation are outside the model.  So is a write that
      fails once the file is open (a full disk): opening a file for
      writing and writing it are one step, which fails only when the path
      cannot be opened.
    - [re.sub] is embedded as a backtracking matcher, written in
      continuation-passing style over the fragment of the [re] syntax that
      the script's pattern uses, driven by a left-to-right substitution loop.
    - The file system is a tree of directories and regular files rooted at
      the working directory; [open], [os.listdir], [os.path.exists] and
      [os.makedirs] act on it and fail with the [OSError] subclass Python
      raises.  Permissions, devices and symbolic links are outside the
      model: the script never inspects the kind of an entry, and [open]
      and [os.listdir] follow links, so a link behaves as the node it
      resolves to.  A directory is a list of entries; a new entry is put
      at its end, which stands for whatever place the file system gives
      it: statements about a directory the script wrote speak of its
      listing up to order. *)

From Stdlib Require Import NArith String Ascii Arith Bool Lia.
From Stdlib Require Import List Permutation.
Import ListNotations.

Set Implicit Arguments.
Set Warnings "-register-all".

(** ** Text *)

Definition char := N.
Definition text := list char.

Definition LF : char := 10%N.
Definition DQUOTE : char := 34%N.
Definition LPAREN : char := 40%N.
Definition RPAREN : char := 41%N.
Definition LBRACE : char := 123%N.
Definition RBRACE : char := 125%N.

(** [py] reads a literal the way the script's source spells it, with two
    conventions: an apostrophe stands for the double quote, and the escape
    backslash-n stands for a line feed. *)
Fixpoint py_chars (l : list ascii) : text :=
  match l with
  | [] => []
  | "\"%char :: "n"%char :: l' => LF :: py_chars l'
  | "'"%char :: l' => DQUOTE :: py_chars l'
  | a :: l' => N_of_ascii a :: py_chars l'
  end.

Definition py (s : string) : text := py_chars (list_ascii_of_string s).

(** [str.endswith] *)
Definition text_eqb (a b : text) : bool :=
  if list_eq_dec N.eq_dec a b then true else false.

Definition endswith (s suffix : text) : bool :=
  text_eqb (skipn (length s - length suffix) s) suffix
  && (length suffix <=? length s).

(** ** The fragment of [re] used by the script *)

(** [\s] on a [str] pattern: the code points for which [str.isspace] holds. *)
Definition isspace (c : char) : bool :=
  (((9 <=? c) && (c <=? 13)) || ((28 <=? c) && (c <=? 32))
   || (c =? 133) || (c =? 160) || (c =? 5760)
   || ((8192 <=? c) && (c <=? 8202))
   || (c =? 8232) || (c =? 8233) || (c =? 8239) || (c =? 8287)
   || (c =? 12288))%N.

Inductive cset : Type :=
| Lit (c : char)        (* one literal character, escaped or not *)
| Space                 (* \s *)
| Except (c : char).    (* [^c] *)

Definition cset_mem (cs : cset) (c : char) : bool :=
  match cs with
  | Lit a => N.eqb c a
  | Space => isspace c
  | Except a => negb (N.eqb c a)
  end.

Inductive regex : Type :=
| Eps
| Chr (cs : cset)
| Star (cs : cset)               (* greedy cs* *)
| Plus (cs : cset)               (* greedy cs+ *)
| Seq (r1 r2 : regex)
| Group (i : nat) (r : regex).   (* capturing group number i *)

(** A match object: the captured groups, most recent first. *)
Definition caps := list (nat * text).

Fixpoint lookup_group (m : caps) (i : nat) : option text :=
  match m with
  | [] => None
  | (j, t) :: m' => if Nat.eqb i j then Some t else lookup_group m' i
  end.

(** [match.group(i)] as an f-string formats it: a group that took no part
    in the match is [None]. *)
Definition group (m : caps) (i : nat) : text :=
  match lookup_group m i with
  | Some t => t
  | None => py "None"
  end.

Section Matcher.

Variable R : Type.

(** Greedy repetition: take one more character when possible, and fall
    back to the continuation when the longer attempt fails. *)
Fixpoint star (cs : cset) (k : text -> option R) (s : text) : option R :=
  match s with
  | c :: s' =>
      if cset_mem cs c
      then match star cs k s' with
           | Some r => Some r
           | None => k s
           end
      else k s
  | [] => k s
  end.

Fixpoint rmatch (r : regex) (s : text) (g : caps)
         (k : text -> caps -> option R) : option R :=
  match r with
  | Eps => k s g
  | Chr cs =>
      match s with
      | c :: s' => if cset_mem cs c then k s' g else None
      | [] => None
      end
  | Star cs => star cs (fun s' => k s' g) s
  | Plus cs =>
      match s with
      | c :: s' =>
          if cset_mem cs c then star cs (fun s' => k s' g) s' else None
      | [] => None
      end
  | Seq r1 r2 => rmatch r1 s g (fun s' g' => rmatch r2 s' g' k)
  | Group i r1 =>
      rmatch r1 s g
        (fun s' g' => k s' ((i, firstn (length s - length s') s) :: g'))
  end.

End Matcher.

(** Anchored match at the head of [s]: the captures and the text left. *)
Definition re_match (r : regex) (s : text) : option (caps * text) :=
  rmatch r s [] (fun s' g => Some (g, s')).

(** [re.sub(r, repl, s)]: scan left to right; at each position not inside
    a previous match try [r]; a match is replaced by [repl] and the scan
    resumes after it ([skip] counts the characters of the match still to
    pass over).  An empty match is replaced and the scan moves on by one
    character. *)
Fixpoint sub_loop (r : regex) (repl : caps -> text) (skip : nat) (s : text)
  : text :=
  match s with
  | [] =>
      match skip, re_match r [] with
      | O, Some (m, _) => repl m
      | _, _ => []
      end
  | c :: s' =>
      match skip with
      | S n => sub_loop r repl n s'
      | O =>
          match re_match r s with
          | Some (m, rest) =>
              match length s - length rest with
              | O => repl m ++ c :: sub_loop r repl 0 s'
              | S n => repl m ++ sub_loop r repl n s'
              end
          | None => c :: sub_loop r repl 0 s'
          end
      end
  end.

Definition re_sub (r : regex) (repl : caps -> text) (s : text) : text :=
  sub_loop r repl 0 s.

(** ** [transform_ron_file]: the pattern and the replacement *)

Fixpoint seq (rs : list regex) : regex :=
  match rs with
  | [] => Eps
  | r :: rs' => Seq r (seq rs')
  end.

Definition lits (s : string) : regex := seq (map (fun c => Chr (Lit c)) (py s)).

Definition ws : regex := Star Space.

(** The pattern of the script, quotes spelled as apostrophes:
    \(\s*name:\s*'([^']+)',\s*ty:\s*'([^']+)',\s*inner:\s*(\([^)]+\)) *)
Definition pattern : regex :=
  seq [ lits "("; ws; lits "name:"; ws;
        lits "'"; Group 1 (Plus (Except DQUOTE)); lits "',"; ws;
        lits "ty:"; ws;
        lits "'"; Group 2 (Plus (Except DQUOTE)); lits "',"; ws;
        lits "inner:"; ws;
        Group 3 (seq [ lits "("; Plus (Except RPAREN); lits ")" ]) ].

(** The f-string returned by [replace_node]; a doubled brace in it is one
    literal brace. *)
Definition replace_node (m : caps) : text :=
  let name := group m 1 in
  let ty := group m 2 in
  let inner := group m 3 in
  py "(\n            name: '" ++ name
  ++ py "',\n            inner: {\n                '" ++ ty
  ++ py "': " ++ inner ++ py "\n            }".

(** [transformed_content = re.sub(pattern, replace_node, content)] *)
Definition transform (content : text) : text :=
  re_sub pattern replace_node content.

(** ** What the pattern denotes

    [matches r m g g']: the text [m] belongs to [r], and matching it turns
    the captures [g] into [g']. *)

Definition all_in (cs : cset) (w : text) : bool := forallb (cset_mem cs) w.

Inductive matches : regex -> text -> caps -> caps -> Prop :=
| M_eps g : matches Eps [] g g
| M_chr cs c g : cset_mem cs c = true -> matches (Chr cs) [c] g g
| M_star cs w g : all_in cs w = true -> matches (Star cs) w g g
| M_plus cs w g : w <> [] -> all_in cs w = true -> matches (Plus cs) w g g
| M_seq r1 r2 m1 m2 g g1 g2 :
    matches r1 m1 g g1 -> matches r2 m2 g1 g2 ->
    matches (Seq r1 r2) (m1 ++ m2) g g2
| M_group i r m g g' :
    matches r m g g' -> matches (Group i r) m g ((i, m) :: g').

(** [m] is an occurrence of [r]. *)
Definition lang (r : regex) (m : text) : Prop := exists g, matches r m [] g.

(** The pieces of an old-shape node as the pattern reads it: the runs of
    white space between the tokens and the three captured texts. *)
Record parts : Type := Parts {
  sp1 : text; sp2 : text; sp3 : text; sp4 : text; sp5 : text; sp6 : text;
  p_name : text; p_ty : text; p_inner : text
}.

Definition nonempty (t : text) : bool :=
  match t with [] => false | _ :: _ => true end.

Definition spaces_ok (p : parts) : bool :=
  all_in Space p.(sp1) && all_in Space p.(sp2) && all_in Space p.(sp3)
  && all_in Space p.(sp4) && all_in Space p.(sp5) && all_in Space p.(sp6).

Definition pieces_ok (p : parts) : bool :=
  all_in (Except DQUOTE) p.(p_name) && all_in (Except DQUOTE) p.(p_ty)
  && all_in (Except RPAREN) p.(p_inner).

Definition pieces_nonempty (p : parts) : bool :=
  nonempty p.(p_name) && nonempty p.(p_ty) && nonempty p.(p_inner).

(** Shaped like a node, the captured pieces possibly empty. *)
Definition parts_shaped (p : parts) : bool := spaces_ok p && pieces_ok p.

Definition parts_ok (p : parts) : bool :=
  parts_shaped p && pieces_nonempty p.

(** [r] starts with a character outside [cs], or is empty: a run of [cs]
    cannot extend into it. *)
Definition blocked (cs : cset) (r : text) : bool :=
  match r with
  | [] => true
  | c :: _ => negb (cset_mem cs c)
  end.

(** The suffixes of a text, longest first: the positions a scan visits. *)
Fixpoint tails (s : text) : list text :=
  s :: match s with
       | [] => []
       | _ :: s' => tails s'
       end.

(** Some substring of [s] is an occurrence of [r]. *)
Definition has_match (r : regex) (s : text) : bool :=
  existsb (fun t => match re_match r t with Some _ => true | None => false end)
          (tails s).

(** No parenthesis and no brace in [t]. *)
Definition delimiter_free (t : text) : bool :=
  forallb (fun c => negb (N.eqb c LPAREN || N.eqb c RPAREN
                          || N.eqb c LBRACE || N.eqb c RBRACE)%bool) t.

(** Number of occurrences of a character. *)
Definition count (c : char) (t : text) : nat := length (filter (N.eqb c) t).

(** ( name: "<NAME>", ty: "<TYPE>", inner: (<INNER>) with its white space. *)
Definition fragment (p : parts) : text :=
  py "(" ++ p.(sp1) ++ py "name:" ++ p.(sp2)
  ++ py "'" ++ p.(p_name) ++ py "'," ++ p.(sp3)
  ++ py "ty:" ++ p.(sp4)
  ++ py "'" ++ p.(p_ty) ++ py "'," ++ p.(sp5)
  ++ py "inner:" ++ p.(sp6)
  ++ py "(" ++ p.(p_inner) ++ py ")".

(** The groups a match of that fragment carries. *)
Definition caps_of (p : parts) : caps :=
  [ (3, py "(" ++ p.(p_inner) ++ py ")"); (2, p.(p_ty)); (1, p.(p_name)) ].

(** The output for one fragment, per the replacement rule. *)
Definition rewritten (p : parts) : text :=
  py "(\n            name: '" ++ p.(p_name)
  ++ py "',\n            inner: {\n                '" ++ p.(p_ty)
  ++ py "': " ++ (py "(" ++ p.(p_inner) ++ py ")") ++ py "\n            }".

(** [replaces s o]: [o] is [s] with disjoint occurrences of the pattern,
    taken left to right, each replaced by [replace_node] of its groups,
    and every other character copied in place; a character is copied only
    where no occurrence starts. *)
Inductive replaces : text -> text -> Prop :=
| R_end : replaces [] []
| R_copy c s o :
    (forall m rest, c :: s = m ++ rest -> ~ lang pattern m) ->
    replaces s o -> replaces (c :: s) (c :: o)
| R_node m g s o :
    matches pattern m [] g -> replaces s o ->
    replaces (m ++ s) (replace_node g ++ o).

(** ** The file system and the console *)

Definition name := text.
Definition path := list name.       (* components, from the working directory *)

Inductive node : Type :=
| File (content : text)
| Dir (entries : list (name * node)).   (* in the order [os.listdir] reports *)

Inductive OSError : Type :=
| FileNotFoundError
| NotADirectoryError
| IsADirectoryError
| FileExistsError.

Inductive result (A : Type) : Type :=
| Ok (a : A)
| Raise (e : OSError).

Arguments Ok {A} a.
Arguments Raise {A} e.

Fixpoint entry (es : list (name * node)) (n : name) : option node :=
  match es with
  | [] => None
  | (m, x) :: es' => if text_eqb n m then Some x else entry es' n
  end.

Fixpoint set_entry (es : list (name * node)) (n : name) (x : node)
  : list (name * node) :=
  match es with
  | [] => []
  | (m, y) :: es' =>
      if text_eqb n m then (m, x) :: es' else (m, y) :: set_entry es' n x
  end.

(** Path resolution. *)
Fixpoint stat (fs : node) (p : path) : result node :=
  match p with
  | [] => Ok fs
  | n :: p' =>
      match fs with
      | File _ => Raise NotADirectoryError
      | Dir es =>
          match entry es n with
          | Some x => stat x p'
          | None => Raise FileNotFoundError
          end
      end
  end.

(** Replace, or create in an existing directory, the node at [p]; [f] sees
    what is there. *)
Fixpoint update (fs : node) (p : path) (f : option node -> result node)
  : result node :=
  match p with
  | [] => f (Some fs)
  | n :: p' =>
      match fs with
      | File _ => Raise NotADirectoryError
      | Dir es =>
          match entry es n, p' with
          | Some x, _ =>
              match update x p' f with
              | Ok x' => Ok (Dir (set_entry es n x'))
              | Raise e => Raise e
              end
          | None, [] =>
              match f None with
              | Ok x => Ok (Dir (es ++ [(n, x)]))
              | Raise e => Raise e
              end
          | None, _ :: _ => Raise FileNotFoundError
          end
      end
  end.

(** [p] is [q] or an ancestor of [q]. *)
Fixpoint is_prefix (p q : path) : bool :=
  match p, q with
  | [], _ => true
  | _ :: _, [] => false
  | n :: p', m :: q' => text_eqb n m && is_prefix p' q'
  end.

(** A chain of fresh directories [n1/n2/...]. *)
Fixpoint fresh_dirs (p : path) : node :=
  match p with
  | [] => Dir []
  | n :: p' => Dir [(n, fresh_dirs p')]
  end.

(** [os.makedirs(p)]: create the leaf directory and every missing
    intermediate one; the leaf must not exist. *)
Fixpoint makedirs (fs : node) (p : path) : result node :=
  match p with
  | [] => Raise FileExistsError
  | n :: p' =>
      match fs with
      | File _ => Raise NotADirectoryError
      | Dir es =>
          match entry es n with
          | Some x =>
              match makedirs x p' with
              | Ok x' => Ok (Dir (set_entry es n x'))
              | Raise e => Raise e
              end
          | None => Ok (Dir (es ++ [(n, fresh_dirs p')]))
          end
      end
  end.

(** The state the script runs in: the tree under the working directory
    and the lines printed so far. *)
Record world : Type := World {
  fs : node;
  console : list text
}.

(** Computations that read and write the world and may raise. *)
Definition IO (A : Type) : Type := world -> result A * world.

Definition ret {A} (a : A) : IO A := fun w => (Ok a, w).

Definition bind {A B} (m : IO A) (k : A -> IO B) : IO B :=
  fun w =>
    match m w with
    | (Ok a, w') => k a w'
    | (Raise e, w') => (Raise e, w')
    end.

Notation "x <- m ;; k" := (bind m (fun x => k))
  (at level 61, m at next level, right associativity).
Notation "m ;; k" := (bind m (fun _ => k))
  (at level 61, right associativity).

(** A primitive that leaves the world as it was when it fails. *)
Definition lift_fs (f : node -> result node) : IO unit :=
  fun w =>
    match f w.(fs) with
    | Ok fs' => (Ok tt, World fs' w.(console))
    | Raise e => (Raise e, w)
    end.

Definition query {A} (f : node -> result A) : IO A :=
  fun w => (f w.(fs), w).

(** [os.path.exists] *)
Definition path_exists (fs : node) (p : path) : bool :=
  match stat fs p with Ok _ => true | Raise _ => false end.

Definition os_path_exists (p : path) : IO bool :=
  query (fun fs => Ok (path_exists fs p)).

Definition os_makedirs (p : path) : IO unit :=
  lift_fs (fun fs => makedirs fs p).

(** [os.listdir] *)
Definition listdir (fs : node) (p : path) : result (list name) :=
  match stat fs p with
  | Ok (Dir es) => Ok (map fst es)
  | Ok (File _) => Raise NotADirectoryError
  | Raise e => Raise e
  end.

Definition os_listdir (p : path) : IO (list name) :=
  query (fun fs => listdir fs p).

(** [os.path.join(d, filename)] for a name reported by [os.listdir] *)
Definition os_path_join (d : path) (filename : name) : path := d ++ [filename].

(** [with open(p, 'r') as f: f.read()] *)
Definition read_file (fs : node) (p : path) : result text :=
  match stat fs p with
  | Ok (File c) => Ok c
  | Ok (Dir _) => Raise IsADirectoryError
  | Raise e => Raise e
  end.

Definition open_read (p : path) : IO text := query (fun fs => read_file fs p).

(** [with open(p, 'w') as f: f.write(c)] *)
Definition write_file (fs : node) (p : path) (c : text) : result node :=
  update fs p (fun old =>
                 match old with
                 | Some (Dir _) => Raise IsADirectoryError
                 | _ => Ok (File c)
                 end).

Definition open_write (p : path) (c : text) : IO unit :=
  lift_fs (fun fs => write_file fs p c).

Definition print (line : text) : IO unit :=
  fun w => (Ok tt, World w.(fs) (w.(console) ++ [line])).

Fixpoint for_each {A} (l : list A) (body : A -> IO unit) : IO unit :=
  match l with
  | [] => ret tt
  | a :: l' => body a ;; for_each l' body
  end.

(** ** The script *)

Definition transform_ron_file (input_file output_file : path) : IO unit :=
  content <- open_read input_file ;;
  let transformed_content := transform content in
  open_write output_file transformed_content.

(** The body of the loop of [process_directory]. *)
Definition process_entry (input_dir output_dir : path) (filename : name)
  : IO unit :=
  if endswith filename (py ".ron") then
    let input_path := os_path_join input_dir filename in
    let output_path := os_path_join output_dir filename in
    transform_ron_file input_path output_path ;;
    print (py "Transformed " ++ filename)
  else ret tt.

Definition process_directory (input_dir output_dir : path) : IO unit :=
  present <- os_path_exists output_dir ;;
  (if negb present then os_makedirs output_dir else ret tt) ;;
  filenames <- os_listdir input_dir ;;
  for_each filenames (process_entry input_dir output_dir).

Definition input_directory : path := [py "animation_graphs_old"].
Definition output_directory : path := [py "animation_graphs"].

Definition main : IO unit :=
  process_directory input_directory output_directory ;;
  print (py "Transformation complete.").

Definition run {A} (m : IO A) (root : node) : result A * world :=
  m (World root []).

(** The working directory [cwd] with the output directory holding [out]
    added to it. *)
Definition with_output (cwd out : list (name * node)) : node :=
  Dir (cwd ++ [(py "animation_graphs", Dir out)]).

(** What writing the entry [n] does to a directory: an entry of that name
    is replaced in place, a new one goes to the end. *)
Definition put (es : list (name * node)) (n : name) (x : node)
  : list (name * node) :=
  match entry es n with
  | Some _ => set_entry es n x
  | None => es ++ [(n, x)]
  end.

(** The regular files of a directory whose name ends in [.ron], with
    their contents, in the order of the listing. *)
Fixpoint ron_files (es : list (name * node)) : list (name * text) :=
  match es with
  | [] => []
  | (f, File c) :: es' =>
      if endswith f (py ".ron") then (f, c) :: ron_files es'
      else ron_files es'
  | (_, Dir _) :: es' => ron_files es'
  end.

(** The entries whose name ends in [.ron] are all regular files. *)
Fixpoint ron_regular (es : list (name * node)) : bool :=
  match es with
  | [] => true
  | (f, Dir _) :: es' => negb (endswith f (py ".ron")) && ron_regular es'
  | (_, File _) :: es' => ron_regular es'
  end.

(** A directory that holds regular files only. *)
Definition files_only (es : list (name * node)) : bool :=
  forallb (fun e => match snd e with File _ => true | Dir _ => false end) es.

(** The output file for an input file, and the line printed for it. *)
Definition output_entry (fc : name * text) : name * node :=
  (fst fc, File (transform (snd fc))).

Definition progress_line (fc : name * text) : text :=
  py "Transformed " ++ fst fc.

(** A quote or a closing parenthesis ends a run of other characters. *)
Definition plain (c : char) : bool :=
  negb (N.eqb c DQUOTE) && negb (N.eqb c RPAREN).

(** [q] lies off the path [p]: neither is the other or an ancestor of it. *)
Definition apart (q p : path) : bool :=
  negb (is_prefix q p) && negb (is_prefix p q).

(* ------------------------------------------------------------------ *)

(** ** Soundness and completeness of the matcher *)

Section MatcherFacts.

Variable R : Type.

Lemma star_sound cs (k : text -> option R) s res :
  star cs k s = Some res ->
  exists w s', s = w ++ s' /\ all_in cs w = true /\ k s' = Some res.
Proof.
  induction s as [|c s IH]; simpl; intros H.
  - exists [], []. auto.
  - destruct (cset_mem cs c) eqn:Hc.
    + destruct (star cs k s) as [r|] eqn:Hs.
      * injection H as ->.
        destruct (IH eq_refl) as (w & s' & -> & Hw & Hk).
        exists (c :: w), s'. simpl. rewrite Hc. auto.
      * exists [], (c :: s). auto.
    + exists [], (c :: s). auto.
Qed.

Lemma firstn_length_app (m s' : text) :
  firstn (length (m ++ s') - length s') (m ++ s') = m.
Proof.
  rewrite length_app, Nat.add_sub.
  rewrite firstn_app, Nat.sub_diag, firstn_all. simpl.
  apply app_nil_r.
Qed.

Lemma rmatch_sound r :
  forall s g (k : text -> caps -> option R) res,
    rmatch r s g k = Some res ->
    exists m s' g',
      s = m ++ s' /\ matches r m g g' /\ k s' g' = Some res.
Proof.
  induction r as [|cs|cs|cs|r1 IH1 r2 IH2|i r IH]; simpl; intros s g k res H.
  - exists [], s, g. repeat split; auto. constructor.
  - destruct s as [|c s]; [discriminate|].
    destruct (cset_mem cs c) eqn:Hc; [|discriminate].
    exists [c], s, g. repeat split; auto. now constructor.
  - apply star_sound in H. destruct H as (w & s' & -> & Hw & Hk).
    exists w, s', g. repeat split; auto. now constructor.
  - destruct s as [|c s]; [discriminate|].
    destruct (cset_mem cs c) eqn:Hc; [|discriminate].
    apply star_sound in H. destruct H as (w & s' & -> & Hw & Hk).
    exists (c :: w), s', g. repeat split; auto.
    constructor; [discriminate|]. unfold all_in in *. simpl.
    now rewrite Hc.
  - apply IH1 in H. destruct H as (m1 & s1 & g1 & -> & M1 & H).
    apply IH2 in H. destruct H as (m2 & s2 & g2 & -> & M2 & H).
    exists (m1 ++ m2), s2, g2. rewrite app_assoc. repeat split; auto.
    econstructor; eauto.
  - apply IH in H. destruct H as (m & s' & g' & -> & M & H).
    rewrite firstn_length_app in H.
    exists m, s', ((i, m) :: g'). repeat split; auto. now constructor.
Qed.

Lemma star_complete cs (k : text -> option R) w s' :
  all_in cs w = true -> k s' <> None -> star cs k (w ++ s') <> None.
Proof.
  unfold all_in. induction w as [|c w IH]; simpl; intros Hw Hk.
  - destruct s' as [|c s']; simpl; auto.
    destruct (cset_mem cs c); auto.
    destruct (star cs k s'); [discriminate | auto].
  - apply andb_prop in Hw. destruct Hw as [Hc Hw]. rewrite Hc.
    destruct (star cs k (w ++ s')) eqn:E; [discriminate|].
    exfalso. now apply (IH Hw Hk).
Qed.

Lemma rmatch_complete r m g0 g1 :
  matches r m g0 g1 ->
  forall s' g (k : text -> caps -> option R),
    (forall g', k s' g' <> None) -> rmatch r (m ++ s') g k <> None.
Proof.
  induction 1 as [g0|cs c g0 Hc|cs w g0 Hw|cs w g0 Hne Hw
                 |r1 r2 m1 m2 g0 g1 g2 _ IH1 _ IH2|i r m g0 g1 _ IH];
    intros s' g k Hk; simpl.
  - apply Hk.
  - rewrite Hc. apply Hk.
  - apply star_complete; auto.
  - destruct w as [|c w]; [congruence|]. unfold all_in in Hw. simpl in *.
    apply andb_prop in Hw. destruct Hw as [Hc Hw]. rewrite Hc.
    apply star_complete; auto.
  - rewrite <- app_assoc. apply IH1. intros g'. apply IH2, Hk.
  - apply IH. intros g'. apply Hk.
Qed.

End MatcherFacts.

(** The matcher finds a match at the head of [s] exactly when some prefix
    of [s] is an occurrence of the pattern. *)
Lemma re_match_sound r s g rest :
  re_match r s = Some (g, rest) ->
  exists m, s = m ++ rest /\ matches r m [] g.
Proof.
  unfold re_match. intros H. apply rmatch_sound in H.
  destruct H as (m & s' & g' & -> & M & E). injection E as -> ->.
  now exists m.
Qed.

Lemma re_match_complete r m rest :
  lang r m -> re_match r (m ++ rest) <> None.
Proof.
  intros [g M]. unfold re_match.
  apply (rmatch_complete M). discriminate.
Qed.

Lemma re_match_none_iff r s :
  re_match r s = None <-> (forall m rest, s = m ++ rest -> ~ lang r m).
Proof.
  split.
  - intros H m rest -> L. now apply (re_match_complete rest) in L.
  - intros H. destruct (re_match r s) as [[g rest]|] eqn:E; auto.
    apply re_match_sound in E. destruct E as (m & -> & M).
    exfalso. apply (H m rest eq_refl). now exists g.
Qed.

(** ** The occurrences of the pattern are the well-formed fragments *)

Arguments lits : simpl never.

Lemma matches_seq_cons r rs m g g' :
  matches (seq (r :: rs)) m g g' ->
  exists m1 m2 g1,
    m = m1 ++ m2 /\ matches r m1 g g1 /\ matches (seq rs) m2 g1 g'.
Proof.
  simpl. intros H. inversion H; subst. eauto 7.
Qed.

Lemma matches_seq_nil m g g' : matches (seq []) m g g' -> m = [] /\ g' = g.
Proof. simpl. intros H. inversion H; subst. auto. Qed.

Lemma matches_chars_inv l :
  forall m g g',
    matches (seq (map (fun c => Chr (Lit c)) l)) m g g' -> m = l /\ g' = g.
Proof.
  induction l as [|c l IH]; intros m g g' H.
  - now apply matches_seq_nil in H.
  - simpl map in H. apply matches_seq_cons in H.
    destruct H as (m1 & m2 & g1 & -> & H1 & H2).
    apply IH in H2. destruct H2 as [-> ->].
    inversion H1 as [|cs c0 g0 Hc| | | |]; subst.
    simpl in Hc. apply N.eqb_eq in Hc. now subst.
Qed.

Lemma matches_lits_inv s m g g' :
  matches (lits s) m g g' -> m = py s /\ g' = g.
Proof. apply matches_chars_inv. Qed.

Lemma matches_chars l g : matches (seq (map (fun c => Chr (Lit c)) l)) l g g.
Proof.
  induction l as [|c l IH]; simpl.
  - constructor.
  - change (c :: l) with ([c] ++ l). econstructor; eauto.
    constructor. simpl. apply N.eqb_refl.
Qed.

Lemma matches_lits s g : matches (lits s) (py s) g g.
Proof. apply matches_chars. Qed.

Lemma matches_ws_inv m g g' :
  matches ws m g g' -> all_in Space m = true /\ g' = g.
Proof. intros H. inversion H; subst. auto. Qed.

Lemma matches_plus_inv cs m g g' :
  matches (Plus cs) m g g' ->
  all_in cs m = true /\ nonempty m = true /\ g' = g.
Proof.
  intros H. inversion H; subst. repeat split; auto.
  destruct m; [congruence | reflexivity].
Qed.

Lemma matches_group_inv i r m g g' :
  matches (Group i r) m g g' -> exists g1, matches r m g g1 /\ g' = (i, m) :: g1.
Proof. intros H. inversion H; subst. eauto. Qed.

Lemma nonempty_neq (t : text) : nonempty t = true -> t <> [].
Proof. destruct t; [discriminate | congruence]. Qed.

Ltac split_seq H m1 g1 Hhead :=
  apply matches_seq_cons in H;
  destruct H as (m1 & ? & g1 & -> & Hhead & H).

Ltac take_lits H :=
  let m := fresh "m" in let g := fresh "g" in let Hh := fresh "Hh" in
  split_seq H m g Hh; apply matches_lits_inv in Hh; destruct Hh as [-> ->].

Ltac take_ws H w Hw :=
  let g := fresh "g" in let Hh := fresh "Hh" in
  split_seq H w g Hh; apply matches_ws_inv in Hh; destruct Hh as [Hw ->].

Ltac take_group H t Ht Hne :=
  let g := fresh "g" in let g' := fresh "g" in let Hh := fresh "Hh" in
  split_seq H t g Hh; apply matches_group_inv in Hh;
  destruct Hh as (g' & Hh & ->);
  apply matches_plus_inv in Hh; destruct Hh as (Ht & Hne & ->).

Lemma pattern_matches_inv m g :
  matches pattern m [] g ->
  exists p, parts_ok p = true /\ m = fragment p /\ g = caps_of p.
Proof.
  unfold pattern. intros H.
  take_lits H. take_ws H w1 Hw1. take_lits H. take_ws H w2 Hw2.
  take_lits H. take_group H n Hn Hn'. take_lits H. take_ws H w3 Hw3.
  take_lits H. take_ws H w4 Hw4.
  take_lits H. take_group H t Ht Ht'. take_lits H. take_ws H w5 Hw5.
  take_lits H. take_ws H w6 Hw6.
  split_seq H m3 g3 H3. apply matches_seq_nil in H. destruct H as [-> ->].
  apply matches_group_inv in H3. destruct H3 as (g4 & H3 & ->).
  take_lits H3.
  split_seq H3 i g5 Hi.
  apply matches_plus_inv in Hi. destruct Hi as (Hi & Hi' & ->).
  take_lits H3. apply matches_seq_nil in H3. destruct H3 as [-> ->].
  exists (Parts w1 w2 w3 w4 w5 w6 n t i).
  unfold parts_ok, parts_shaped, spaces_ok, pieces_ok, pieces_nonempty.
  unfold fragment, caps_of.
  simpl sp1; simpl sp2; simpl sp3; simpl sp4; simpl sp5; simpl sp6.
  simpl p_name; simpl p_ty; simpl p_inner.
  rewrite Hw1, Hw2, Hw3, Hw4, Hw5, Hw6, Hn, Ht, Hi, Hn', Ht', Hi'.
  rewrite !app_nil_r. repeat split; reflexivity.
Qed.

Lemma parts_ok_inv p :
  parts_ok p = true ->
  (all_in Space p.(sp1) = true /\ all_in Space p.(sp2) = true
   /\ all_in Space p.(sp3) = true /\ all_in Space p.(sp4) = true
   /\ all_in Space p.(sp5) = true /\ all_in Space p.(sp6) = true)
  /\ (all_in (Except DQUOTE) p.(p_name) = true
      /\ all_in (Except DQUOTE) p.(p_ty) = true
      /\ all_in (Except RPAREN) p.(p_inner) = true)
  /\ (nonempty p.(p_name) = true /\ nonempty p.(p_ty) = true
      /\ nonempty p.(p_inner) = true).
Proof.
  unfold parts_ok, parts_shaped, spaces_ok, pieces_ok, pieces_nonempty.
  intros H.
  repeat match goal with
         | H : _ && _ = true |- _ => apply andb_prop in H; destruct H
         end.
  repeat split; assumption.
Qed.

Lemma pattern_matches_fragment p :
  parts_ok p = true -> matches pattern (fragment p) [] (caps_of p).
Proof.
  intros H. apply parts_ok_inv in H.
  destruct H as ((W1 & W2 & W3 & W4 & W5 & W6) & (Pn & Pt & Pi) & (Nn & Nt & Ni)).
  apply nonempty_neq in Nn, Nt, Ni.
  unfold pattern, fragment, caps_of. simpl seq.
  do 16 (eapply M_seq;
         [ first [ apply matches_lits
                 | apply M_star; assumption
                 | apply (@M_group 1), M_plus; assumption
                 | apply (@M_group 2), M_plus; assumption ] | ]).
  rewrite <- (app_nil_r (py "(" ++ p_inner p ++ py ")")) at 1.
  eapply M_seq; [|constructor].
  apply (@M_group 3).
  rewrite <- (app_nil_r (py ")")).
  repeat (first [ eapply M_seq | apply matches_lits | apply M_plus; assumption
                | apply M_eps ]).
Qed.

Lemma pattern_matches_iff m g :
  matches pattern m [] g <->
  exists p, parts_ok p = true /\ m = fragment p /\ g = caps_of p.
Proof.
  split.
  - apply pattern_matches_inv.
  - intros (p & Hp & -> & ->). now apply pattern_matches_fragment.
Qed.

(** ** A fragment is read in one way only *)

Lemma span_unique cs a : forall a' r r',
  all_in cs a = true -> all_in cs a' = true ->
  blocked cs r = true -> blocked cs r' = true ->
  a ++ r = a' ++ r' -> a = a' /\ r = r'.
Proof.
  unfold all_in.
  induction a as [|c a IH]; intros [|c' a'] r r' Ha Ha' Hr Hr' E; simpl in *.
  - auto.
  - subst r. simpl in Hr. apply andb_prop in Ha'. destruct Ha' as [Hc _].
    rewrite Hc in Hr. discriminate.
  - subst r'. simpl in Hr'. apply andb_prop in Ha. destruct Ha as [Hc _].
    rewrite Hc in Hr'. discriminate.
  - injection E as -> E.
    apply andb_prop in Ha, Ha'. destruct Ha as [_ Ha], Ha' as [_ Ha'].
    destruct (IH a' r r' Ha Ha' Hr Hr' E) as [-> ->]. auto.
Qed.

Lemma parts_ok_shaped p : parts_ok p = true -> parts_shaped p = true.
Proof.
  unfold parts_ok, parts_shaped. intros H.
  apply andb_prop in H. tauto.
Qed.

Lemma parts_shaped_inv p :
  parts_shaped p = true ->
  (all_in Space p.(sp1) = true /\ all_in Space p.(sp2) = true
   /\ all_in Space p.(sp3) = true /\ all_in Space p.(sp4) = true
   /\ all_in Space p.(sp5) = true /\ all_in Space p.(sp6) = true)
  /\ (all_in (Except DQUOTE) p.(p_name) = true
      /\ all_in (Except DQUOTE) p.(p_ty) = true
      /\ all_in (Except RPAREN) p.(p_inner) = true).
Proof.
  unfold parts_shaped, spaces_ok, pieces_ok. intros H.
  repeat match goal with
         | H : _ && _ = true |- _ => apply andb_prop in H; destruct H
         end.
  repeat split; assumption.
Qed.

Ltac span_step H cs Hx :=
  apply (@span_unique cs) in H;
  [ destruct H as [Hx H] | assumption | assumption
  | reflexivity | reflexivity ].

Lemma fragment_unique p p' rest rest' :
  parts_shaped p = true -> parts_shaped p' = true ->
  fragment p ++ rest = fragment p' ++ rest' ->
  p = p' /\ rest = rest'.
Proof.
  intros Hp Hp' E.
  apply parts_shaped_inv in Hp, Hp'.
  destruct Hp as ((W1 & W2 & W3 & W4 & W5 & W6) & (Pn & Pt & Pi)).
  destruct Hp' as ((W1' & W2' & W3' & W4' & W5' & W6') & (Pn' & Pt' & Pi')).
  destruct p as [w1 w2 w3 w4 w5 w6 n t i].
  destruct p' as [w1' w2' w3' w4' w5' w6' n' t' i'].
  unfold fragment in E. simpl sp1 in *; simpl sp2 in *; simpl sp3 in *.
  simpl sp4 in *; simpl sp5 in *; simpl sp6 in *.
  simpl p_name in *; simpl p_ty in *; simpl p_inner in *.
  rewrite <- !app_assoc in E.
  apply app_inv_head in E. span_step E Space E1.
  apply app_inv_head in E. span_step E Space E2.
  apply app_inv_head in E. span_step E (Except DQUOTE) En.
  apply app_inv_head in E. span_step E Space E3.
  apply app_inv_head in E. span_step E Space E4.
  apply app_inv_head in E. span_step E (Except DQUOTE) Et.
  apply app_inv_head in E. span_step E Space E5.
  apply app_inv_head in E. span_step E Space E6.
  apply app_inv_head in E. span_step E (Except RPAREN) Ei.
  apply app_inv_head in E.
  subst. auto.
Qed.

(** What [re_match pattern] computes: it succeeds exactly on a text that
    starts with a well-formed fragment, and then returns the three pieces
    and the text after the fragment. *)
Lemma re_match_pattern_iff s g rest :
  re_match pattern s = Some (g, rest) <->
  exists p, parts_ok p = true /\ s = fragment p ++ rest /\ g = caps_of p.
Proof.
  split.
  - intros H. apply re_match_sound in H. destruct H as (m & -> & M).
    apply pattern_matches_inv in M. destruct M as (p & Hp & -> & ->).
    now exists p.
  - intros (p & Hp & -> & ->).
    destruct (re_match pattern (fragment p ++ rest)) as [[g r]|] eqn:E.
    + apply re_match_sound in E. destruct E as (m & E & M).
      apply pattern_matches_inv in M. destruct M as (p' & Hp' & -> & ->).
      apply fragment_unique in E; auto using parts_ok_shaped.
      destruct E as [-> ->]. reflexivity.
    + exfalso. revert E. apply re_match_complete.
      exists (caps_of p). now apply pattern_matches_fragment.
Qed.

Lemma re_match_fragment p rest :
  parts_ok p = true ->
  re_match pattern (fragment p ++ rest) = Some (caps_of p, rest).
Proof. intros H. apply re_match_pattern_iff. now exists p. Qed.

(** ** The substitution loop *)

Lemma sub_loop_skip r repl n : forall s,
  n <= length s -> sub_loop r repl n s = sub_loop r repl 0 (skipn n s).
Proof.
  induction n as [|n IH]; intros s Hn.
  - reflexivity.
  - destruct s as [|c s]; simpl in Hn; [lia|].
    simpl. apply IH. lia.
Qed.

Lemma re_sub_nil r repl :
  re_match r [] = None -> re_sub r repl [] = [].
Proof. unfold re_sub. simpl. now intros ->. Qed.

Lemma re_sub_copy r repl c s :
  re_match r (c :: s) = None -> re_sub r repl (c :: s) = c :: re_sub r repl s.
Proof. unfold re_sub. simpl. now intros ->. Qed.

Lemma sub_loop_cons r repl c s :
  sub_loop r repl 0 (c :: s) =
  match re_match r (c :: s) with
  | Some (m, rest) =>
      match length (c :: s) - length rest with
      | O => repl m ++ c :: sub_loop r repl 0 s
      | S n => repl m ++ sub_loop r repl n s
      end
  | None => c :: sub_loop r repl 0 s
  end.
Proof. reflexivity. Qed.

Lemma re_sub_match r repl m g rest :
  m <> [] -> re_match r (m ++ rest) = Some (g, rest) ->
  re_sub r repl (m ++ rest) = repl g ++ re_sub r repl rest.
Proof.
  unfold re_sub. intros Hm H. destruct m as [|c m]; [congruence|].
  simpl app in *. rewrite sub_loop_cons, H.
  replace (length (c :: m ++ rest) - length rest) with (S (length m))
    by (cbn [length]; rewrite length_app; lia).
  rewrite sub_loop_skip by (rewrite length_app; lia).
  now rewrite skipn_app, skipn_all, Nat.sub_diag.
Qed.

Lemma fragment_cons p : exists t, fragment p = LPAREN :: t.
Proof. unfold fragment. simpl. eauto. Qed.

Lemma fragment_nonempty p : fragment p <> [].
Proof. destruct (fragment_cons p) as [t ->]. discriminate. Qed.

Lemma replace_node_caps_of p : replace_node (caps_of p) = rewritten p.
Proof. reflexivity. Qed.

Lemma transform_nil : transform [] = [].
Proof. reflexivity. Qed.

Lemma transform_copy c s :
  re_match pattern (c :: s) = None -> transform (c :: s) = c :: transform s.
Proof. apply re_sub_copy. Qed.

Lemma transform_match s g rest :
  re_match pattern s = Some (g, rest) ->
  transform s = replace_node g ++ transform rest.
Proof.
  intros H. pose proof H as H'. apply re_match_pattern_iff in H'.
  destruct H' as (p & Hp & -> & ->).
  apply re_sub_match; auto using fragment_nonempty.
Qed.

Lemma transform_fragment p rest :
  parts_ok p = true ->
  transform (fragment p ++ rest) = rewritten p ++ transform rest.
Proof.
  intros Hp. rewrite <- replace_node_caps_of.
  apply transform_match. now apply re_match_fragment.
Qed.

Lemma In_tails t : forall s, In t (tails s) <-> exists pre, s = pre ++ t.
Proof.
  induction s as [|c s IH].
  - simpl. split.
    + intros [<-|[]]. now exists [].
    + intros (pre & E). symmetry in E. apply app_eq_nil in E.
      left. symmetry. tauto.
  - cbn [tails In]. rewrite IH. split.
    + intros [<-|(pre & ->)]; [now exists [] | now exists (c :: pre)].
    + intros ([|c' pre] & E); simpl in E.
      * now left.
      * injection E as -> ->. right. now exists pre.
Qed.

Lemma has_match_false_iff r s :
  has_match r s = false <->
  (forall pre m post, s = pre ++ m ++ post -> ~ lang r m).
Proof.
  unfold has_match. split.
  - intros H pre m post -> L.
    apply (re_match_complete post) in L. apply L.
    destruct (re_match r (m ++ post)) eqn:E; auto.
    assert (X : existsb
                  (fun t => match re_match r t with
                            | Some _ => true | None => false end)
                  (tails (pre ++ m ++ post)) = true).
    { apply existsb_exists. exists (m ++ post). split.
      - apply In_tails. now exists pre.
      - now rewrite E. }
    congruence.
  - intros H.
    destruct (existsb _ (tails s)) eqn:E; auto.
    apply existsb_exists in E. destruct E as (t & Ht & E).
    apply In_tails in Ht. destruct Ht as (pre & ->).
    destruct (re_match r t) as [[g rest]|] eqn:M; [|discriminate].
    apply re_match_sound in M. destruct M as (m & -> & M).
    exfalso. apply (H pre m rest eq_refl). now exists g.
Qed.

Lemma transform_no_match s :
  (forall pre t, s = pre ++ t -> re_match pattern t = None) ->
  transform s = s.
Proof.
  induction s as [|c s IH]; intros H.
  - reflexivity.
  - rewrite transform_copy by (apply (H []); reflexivity).
    f_equal. apply IH. intros pre t ->. apply (H (c :: pre)). reflexivity.
Qed.

Lemma transform_replaces_aux n : forall s,
  length s <= n -> replaces s (transform s).
Proof.
  induction n as [|n IH]; intros s Hn.
  - destruct s; [|simpl in Hn; lia]. constructor.
  - destruct s as [|c s]; [constructor|].
    destruct (re_match pattern (c :: s)) as [[g rest]|] eqn:E.
    + rewrite (transform_match _ E).
      apply re_match_sound in E. destruct E as (m & E & M).
      rewrite E. apply R_node; auto. apply IH.
      apply pattern_matches_inv in M. destruct M as (p & _ & -> & _).
      destruct (fragment_cons p) as (t & Hf). rewrite Hf in E.
      apply (f_equal (@length _)) in E. simpl in E, Hn.
      rewrite length_app in E. lia.
    + rewrite transform_copy by exact E. constructor.
      * now apply re_match_none_iff.
      * apply IH. simpl in Hn. lia.
Qed.

(** ** Counting parentheses *)

Lemma count_app c a b : count c (a ++ b) = count c a + count c b.
Proof. unfold count. now rewrite filter_app, length_app. Qed.

Lemma count_cons c d t :
  count c (d :: t) = (if N.eqb c d then 1 else 0) + count c t.
Proof. unfold count. simpl. now destruct (N.eqb c d). Qed.

Lemma count_all_in cs c w :
  all_in cs w = true -> cset_mem cs c = false -> count c w = 0.
Proof.
  unfold all_in. intros Hw Hc. induction w as [|d w IH]; [reflexivity|].
  simpl in Hw. apply andb_prop in Hw. destruct Hw as [Hd Hw].
  rewrite count_cons, (IH Hw).
  destruct (N.eqb c d) eqn:E; [|reflexivity].
  apply N.eqb_eq in E. subst d. congruence.
Qed.

Lemma count_fragment p :
  spaces_ok p = true ->
  count LPAREN (fragment p) =
  2 + count LPAREN p.(p_name) + count LPAREN p.(p_ty)
  + count LPAREN p.(p_inner).
Proof.
  unfold spaces_ok. intros H.
  repeat match goal with
         | H : _ && _ = true |- _ => apply andb_prop in H; destruct H
         end.
  unfold fragment. rewrite !count_app.
  repeat match goal with
         | H : all_in Space ?w = true |- _ =>
             rewrite (@count_all_in Space LPAREN w H eq_refl); clear H
         end.
  change (count LPAREN (py "(")) with 1.
  change (count LPAREN (py "name:")) with 0.
  change (count LPAREN (py "'")) with 0.
  change (count LPAREN (py "',")) with 0.
  change (count LPAREN (py "ty:")) with 0.
  change (count LPAREN (py "inner:")) with 0.
  change (count LPAREN (py ")")) with 0.
  lia.
Qed.

(** ** The transform: properties of the specification *)

(** C1.  For the input [(name: 'A', ty: 'T', inner: (x: 1))] (apostrophes
    standing for double quotes) the transform returns the text of the
    replacement template: it holds [name: 'A'], then a mapping opened
    under the key [inner], and inside it the key ['T'] whose value is the
    text [(x: 1)], both parentheses included.  Only white space separates
    the opening brace, the entry and the closing brace. *)
Theorem transform_example_shape :
  transform (py "(name: 'A', ty: 'T', inner: (x: 1))")
  = py "(\n            name: 'A',\n            inner: {\n                'T': (x: 1)\n            })"
  /\ exists a b c d e,
      transform (py "(name: 'A', ty: 'T', inner: (x: 1))")
      = a ++ py "name: 'A'" ++ b ++ py "inner: {" ++ c
          ++ py "'T': (x: 1)" ++ d ++ py "}" ++ e
      /\ all_in Space c = true /\ all_in Space d = true.
Proof.
  split.
  - vm_compute. reflexivity.
  - exists (py "(\n            "), (py ",\n            "),
      (py "\n                "), (py "\n            "), (py ")").
    repeat split; vm_compute; reflexivity.
Qed.

Lemma replaces_transform s o : replaces s o -> o = transform s.
Proof.
  induction 1 as [|c s o Hno _ IH|m g s o M _ IH].
  - reflexivity.
  - rewrite transform_copy by now apply re_match_none_iff.
    now rewrite IH.
  - apply pattern_matches_inv in M. destruct M as (p & Hp & -> & ->).
    rewrite transform_fragment by exact Hp.
    now rewrite replace_node_caps_of, IH.
Qed.

(** C2.  For every input text the output of the transform is the input
    with the occurrences of the fragment pattern replaced, leftmost first
    and without overlap: outside the matched spans every character is
    copied, in place and in order.  No other text stands in that relation
    to the input. *)
Theorem transform_outside_matches s :
  replaces s (transform s) /\ (forall o, replaces s o -> o = transform s).
Proof.
  split.
  - apply transform_replaces_aux with (n := length s). apply Nat.le_refl.
  - apply replaces_transform.
Qed.

(** C3.  A text none of whose substrings is an occurrence of the fragment
    pattern is returned unchanged; the transform is a total function, so
    no error arises on it. *)
Theorem transform_identity_without_occurrence s :
  (forall pre m post, s = pre ++ m ++ post -> ~ lang pattern m) ->
  transform s = s.
Proof.
  intros H. apply transform_no_match. intros pre t ->.
  apply re_match_none_iff. intros m rest ->. apply (H pre m rest eq_refl).
Qed.

(** A fragment with an unterminated quote holds no occurrence and passes
    through untouched. *)
Lemma transform_unterminated_quote :
  (forall pre m post,
      py "(name: 'A, ty: 'T', inner: (x: 1))" = pre ++ m ++ post ->
      ~ lang pattern m)
  /\ transform (py "(name: 'A, ty: 'T', inner: (x: 1))")
     = py "(name: 'A, ty: 'T', inner: (x: 1))".
Proof.
  assert (H : forall pre m post,
             py "(name: 'A, ty: 'T', inner: (x: 1))" = pre ++ m ++ post ->
             ~ lang pattern m).
  { apply has_match_false_iff. vm_compute. reflexivity. }
  split; [exact H|].
  exact (transform_identity_without_occurrence H).
Defined.

(** C4.  The inner capture is not balanced: on
    [inner: (a: (b: 1))] it takes [(a: (b: 1] and then the first closing
    parenthesis as its closer, so the last two parentheses stay outside
    the match.  In every match the inner capture is an opening
    parenthesis, characters other than the closing one, and one closing
    parenthesis. *)
Theorem inner_capture_stops_at_first_close :
  re_match pattern (py "(name: 'A', ty: 'T', inner: (a: (b: 1)))")
  = Some ([ (3, py "(a: (b: 1" ++ py ")"); (2, py "T"); (1, py "A") ],
          py "))")
  /\ transform (py "(name: 'A', ty: 'T', inner: (a: (b: 1)))")
     = py "(\n            name: 'A',\n            inner: {\n                'T': (a: (b: 1)\n            }))"
  /\ (forall s g rest,
        re_match pattern s = Some (g, rest) ->
        exists i, group g 3 = py "(" ++ i ++ py ")"
                  /\ all_in (Except RPAREN) i = true
                  /\ count RPAREN (group g 3) = 1).
Proof.
  split; [vm_compute; reflexivity|].
  split; [vm_compute; reflexivity|].
  intros s g rest H. apply re_match_pattern_iff in H.
  destruct H as (p & Hp & _ & ->).
  exists p.(p_inner). apply parts_ok_inv in Hp.
  destruct Hp as (_ & (_ & _ & Hi) & _).
  repeat split; auto.
  change (group (caps_of p) 3) with (py "(" ++ p_inner p ++ py ")").
  rewrite !count_app, (@count_all_in (Except RPAREN) RPAREN _ Hi eq_refl).
  reflexivity.
Qed.

Lemma inner_capture_example :
  exists i,
    group [ (3, py "(a: (b: 1)"); (2, py "T"); (1, py "A") ] 3
    = py "(" ++ i ++ py ")"
    /\ all_in (Except RPAREN) i = true
    /\ count RPAREN
         (group [ (3, py "(a: (b: 1)"); (2, py "T"); (1, py "A") ] 3) = 1.
Proof.
  apply (proj2 (proj2 inner_capture_stops_at_first_close)
           (py "(name: 'A', ty: 'T', inner: (a: (b: 1)))") _ (py "))")).
  vm_compute. reflexivity.
Defined.

(** C5.  The replacement for a matched fragment opens the outer group with
    a parenthesis and the inner mapping with a brace and closes the brace,
    and the text of the template between the captured pieces holds no
    other parenthesis or brace: nothing closes the outer group.  A closing
    parenthesis that follows the match in the source lies outside it and
    is copied as it stands. *)
Theorem replacement_leaves_outer_group_open p rest :
  parts_ok p = true ->
  (exists a b c d e,
      replace_node (caps_of p)
      = [LPAREN] ++ a ++ p.(p_name) ++ b ++ [LBRACE] ++ c ++ p.(p_ty)
          ++ d ++ (py "(" ++ p.(p_inner) ++ py ")") ++ e ++ [RBRACE]
      /\ delimiter_free (a ++ b ++ c ++ d ++ e) = true)
  /\ transform (fragment p ++ RPAREN :: rest)
     = replace_node (caps_of p) ++ RPAREN :: transform rest.
Proof.
  intros Hp. split.
  - exists (py "\n            name: '"), (py "',\n            inner: "),
      (py "\n                '"), (py "': "), (py "\n            ").
    split; reflexivity.
  - rewrite transform_fragment by exact Hp. rewrite replace_node_caps_of.
    apply f_equal. apply transform_copy. reflexivity.
Qed.

Lemma replacement_example :
  parts_ok (Parts [] (py " ") (py " ") (py " ") (py " ") (py " ")
                  (py "A") (py "T") (py "x: 1")) = true
  /\ transform (py "(name: 'A', ty: 'T', inner: (x: 1))")
     = replace_node [ (3, py "(x: 1)"); (2, py "T"); (1, py "A") ]
       ++ RPAREN :: transform [].
Proof.
  split; [reflexivity|].
  exact (proj2 (@replacement_leaves_outer_group_open
                  (Parts [] (py " ") (py " ") (py " ") (py " ") (py " ")
                         (py "A") (py "T") (py "x: 1")) [] eq_refl)).
Defined.

Lemma spaces_of_shaped p : parts_shaped p = true -> spaces_ok p = true.
Proof. unfold parts_shaped. intros H. apply andb_prop in H. tauto. Qed.

Lemma re_match_empty_piece p rest :
  parts_shaped p = true -> pieces_nonempty p = false ->
  re_match pattern (fragment p ++ rest) = None.
Proof.
  intros Hs Hne.
  destruct (re_match pattern (fragment p ++ rest)) as [[g r]|] eqn:E; auto.
  apply re_match_pattern_iff in E. destruct E as (p' & Hp' & E & _).
  apply fragment_unique in E; auto using parts_ok_shaped.
  destruct E as [<- _]. unfold parts_ok in Hp'.
  rewrite Hne, andb_false_r in Hp'. discriminate.
Qed.

(** C9, as the script behaves.  A fragment one of whose captured pieces
    is empty is not an occurrence of the pattern: each capture needs one
    character at least.  No match starts at it, so the scan copies its
    opening parenthesis and moves on; and when no other opening
    parenthesis occurs in its pieces or after it, so that no other
    occurrence can start inside it, the transform returns the text
    completely unchanged. *)
Theorem empty_piece_is_not_matched p :
  parts_shaped p = true -> pieces_nonempty p = false ->
  ~ lang pattern (fragment p)
  /\ (forall rest, re_match pattern (fragment p ++ rest) = None)
  /\ (forall rest, exists t,
        fragment p ++ rest = LPAREN :: t
        /\ transform (fragment p ++ rest) = LPAREN :: transform t)
  /\ (forall rest,
        count LPAREN p.(p_name) = 0 -> count LPAREN p.(p_ty) = 0 ->
        count LPAREN p.(p_inner) = 0 -> count LPAREN rest = 0 ->
        transform (fragment p ++ rest) = fragment p ++ rest).
Proof.
  intros Hs Hne.
  pose proof (fun rest => @re_match_empty_piece p rest Hs Hne) as Hnone.
  split; [|split; [|split]].
  - intros L. apply (re_match_complete []) in L. now rewrite Hnone in L.
  - exact Hnone.
  - intros rest. specialize (Hnone rest).
    destruct (fragment_cons p) as (u & Hu). rewrite Hu in *.
    exists (u ++ rest). split; [reflexivity|].
    now apply transform_copy.
  - intros rest Cn Ct Ci Cr. apply transform_no_match. intros pre t E.
    destruct (re_match pattern t) as [[g r]|] eqn:M; auto. exfalso.
    apply re_match_pattern_iff in M. destruct M as (p' & Hp' & -> & _).
    assert (Hcount : count LPAREN (fragment p ++ rest) = 2).
    { rewrite count_app, count_fragment by now apply spaces_of_shaped.
      lia. }
    assert (Hpre : count LPAREN pre = 0).
    { rewrite E, !count_app, count_fragment in Hcount.
      - lia.
      - now apply spaces_of_shaped, parts_ok_shaped. }
    destruct pre as [|c pre].
    + rewrite app_nil_l in E.
      apply fragment_unique in E; auto using parts_ok_shaped.
      destruct E as [-> _]. unfold parts_ok in Hp'.
      rewrite Hne, andb_false_r in Hp'. discriminate.
    + destruct (fragment_cons p) as (u & Hu). rewrite Hu in E.
      simpl in E. injection E as <- _.
      rewrite count_cons in Hpre. simpl in Hpre. lia.
Qed.

(** The three fragments of C9: an empty name, an empty type tag and
    an empty inner text. *)
Lemma empty_piece_examples :
  transform (py "(name: '', ty: 'T', inner: (x: 1))")
  = py "(name: '', ty: 'T', inner: (x: 1))"
  /\ transform (py "(name: 'A', ty: '', inner: (x: 1))")
     = py "(name: 'A', ty: '', inner: (x: 1))"
  /\ transform (py "(name: 'A', ty: 'T', inner: ())")
     = py "(name: 'A', ty: 'T', inner: ())".
Proof.
  split; [|split].
  - exact (proj2 (proj2 (proj2 (@empty_piece_is_not_matched
             (Parts [] (py " ") (py " ") (py " ") (py " ") (py " ")
                    [] (py "T") (py "x: 1")) eq_refl eq_refl)))
             (py ")") eq_refl eq_refl eq_refl eq_refl).
  - exact (proj2 (proj2 (proj2 (@empty_piece_is_not_matched
             (Parts [] (py " ") (py " ") (py " ") (py " ") (py " ")
                    (py "A") [] (py "x: 1")) eq_refl eq_refl)))
             (py ")") eq_refl eq_refl eq_refl eq_refl).
  - exact (proj2 (proj2 (proj2 (@empty_piece_is_not_matched
             (Parts [] (py " ") (py " ") (py " ") (py " ") (py " ")
                    (py "A") (py "T") []) eq_refl eq_refl)))
             (py ")") eq_refl eq_refl eq_refl eq_refl).
Defined.

(** C9 as stated fails on a fragment with an empty name whose type tag
    ends in an opening parenthesis and the key [name:]: an occurrence of
    the pattern starts there, reaches into the inner text, and is
    rewritten, so the fragment is not passed through unchanged. *)
Lemma empty_name_fragment_is_rewritten :
  parts_shaped (Parts [] (py " ") (py " ") (py " ") (py " ") (py " ")
                      [] (py "(name: ") (py "x', ty: 'y', inner: (z"))
  = true
  /\ p_name (Parts [] (py " ") (py " ") (py " ") (py " ") (py " ")
                   [] (py "(name: ") (py "x', ty: 'y', inner: (z")) = []
  /\ fragment (Parts [] (py " ") (py " ") (py " ") (py " ") (py " ")
                     [] (py "(name: ") (py "x', ty: 'y', inner: (z"))
     = py "(name: '', ty: '(name: ', inner: (x', ty: 'y', inner: (z)"
  /\ transform (py "(name: '', ty: '(name: ', inner: (x', ty: 'y', inner: (z)")
     <> py "(name: '', ty: '(name: ', inner: (x', ty: 'y', inner: (z)".
Proof.
  split; [reflexivity|]. split; [reflexivity|]. split; [reflexivity|].
  intros H. vm_compute in H. discriminate.
Qed.

(** Why the last part needs its side condition: a type tag that holds an
    opening parenthesis can start an occurrence of its own, which reaches
    into the text that follows and is rewritten. *)
Example occurrence_inside_a_piece :
  re_match pattern (py "(name: '', ty: '(name: ', inner: (x', ty: 'y', inner: (z))")
  = None
  /\ has_match pattern
       (py "(name: '', ty: '(name: ', inner: (x', ty: 'y', inner: (z))")
     = true.
Proof. split; vm_compute; reflexivity. Qed.

(** C10.  Matching tolerates white space: whatever runs of white space
    (empty ones and line breaks included) stand after the opening
    parenthesis, after each comma and after each of the keys [name:],
    [ty:] and [inner:], the fragment is matched with the same three
    captures and rewritten. *)
Theorem pattern_tolerates_whitespace p rest :
  parts_ok p = true ->
  re_match pattern (fragment p ++ rest) = Some (caps_of p, rest)
  /\ transform (fragment p ++ rest)
     = replace_node [ (3, py "(" ++ p.(p_inner) ++ py ")");
                      (2, p.(p_ty)); (1, p.(p_name)) ]
       ++ transform rest.
Proof.
  intros Hp. split.
  - now apply re_match_fragment.
  - now apply transform_fragment.
Qed.

(** A node spread over several lines, with no space after the keys, is
    rewritten like the one-line node. *)
Lemma whitespace_example :
  parts_ok (Parts (py "\n  ") [] (py "\n  ") [] (py "\n  ") []
                  (py "A") (py "T") (py "x: 1")) = true
  /\ re_match pattern (py "(\n  name:'A',\n  ty:'T',\n  inner:(x: 1))")
     = Some ([ (3, py "(x: 1)"); (2, py "T"); (1, py "A") ], py ")")
  /\ transform (py "(\n  name:'A',\n  ty:'T',\n  inner:(x: 1))")
     = transform (py "(name: 'A', ty: 'T', inner: (x: 1))").
Proof.
  split; [reflexivity|].
  pose proof (@pattern_tolerates_whitespace
                (Parts (py "\n  ") [] (py "\n  ") [] (py "\n  ") []
                       (py "A") (py "T") (py "x: 1")) (py ")") eq_refl)
    as [H1 H2].
  split; [exact H1|].
  etransitivity; [exact H2|]. vm_compute. reflexivity.
Defined.

(** ** Directories *)

Lemma text_eqb_eq a b : text_eqb a b = true <-> a = b.
Proof.
  unfold text_eqb. destruct (list_eq_dec N.eq_dec a b); split; auto.
  discriminate.
Qed.

Lemma text_eqb_refl a : text_eqb a a = true.
Proof. now apply text_eqb_eq. Qed.

Lemma entry_app es1 es2 n :
  entry (es1 ++ es2) n =
  match entry es1 n with
  | Some x => Some x
  | None => entry es2 n
  end.
Proof.
  induction es1 as [|[m y] es1 IH]; simpl; auto.
  destruct (text_eqb n m); auto.
Qed.

Lemma entry_set_entry es n x' m :
  entry es n <> None ->
  entry (set_entry es n x') m = if text_eqb m n then Some x' else entry es m.
Proof.
  induction es as [|[k y] es IH]; simpl; intros H; [congruence|].
  destruct (text_eqb n k) eqn:E.
  - apply text_eqb_eq in E. subst k. simpl. now destruct (text_eqb m n).
  - simpl. rewrite IH by exact H.
    destruct (text_eqb m k) eqn:E'; auto.
    apply text_eqb_eq in E'. subst k.
    destruct (text_eqb m n) eqn:E''; auto.
    apply text_eqb_eq in E''. subst. rewrite text_eqb_refl in E. discriminate.
Qed.

Lemma set_entry_app_new es n x y :
  entry es n = None -> set_entry (es ++ [(n, x)]) n y = es ++ [(n, y)].
Proof.
  induction es as [|[k z] es IH]; simpl; intros H.
  - now rewrite text_eqb_refl.
  - destruct (text_eqb n k); [discriminate|]. now rewrite IH.
Qed.

Lemma stat_cons es n p :
  stat (Dir es) (n :: p) =
  match entry es n with
  | Some x => stat x p
  | None => Raise FileNotFoundError
  end.
Proof. reflexivity. Qed.

Lemma stat_fresh_dirs p : forall q,
  stat (fresh_dirs p) q =
  if is_prefix q p then Ok (fresh_dirs (skipn (length q) p))
  else Raise FileNotFoundError.
Proof.
  induction p as [|n p IH]; intros [|m q]; simpl; auto.
  destruct (text_eqb m n) eqn:E; simpl; auto.
Qed.

Lemma path_exists_nil fs : path_exists fs [] = true.
Proof. reflexivity. Qed.

(** [os.makedirs] leaves a missing path missing unless it lies on the
    way to the directory it creates. *)
Lemma makedirs_keeps_missing p : forall fs fs' q,
  makedirs fs p = Ok fs' ->
  path_exists fs q = false -> is_prefix q p = false ->
  path_exists fs' q = false.
Proof.
  unfold path_exists.
  induction p as [|n p IH]; intros fs fs' q Hm Hq Hpre; [discriminate|].
  destruct q as [|m q]; [discriminate|].
  destruct fs as [c|es]; [discriminate|].
  simpl in Hm, Hpre. rewrite stat_cons in Hq.
  destruct (entry es n) as [x|] eqn:En.
  - destruct (makedirs x p) as [x'|e] eqn:Hx; [|discriminate].
    injection Hm as <-. rewrite stat_cons, entry_set_entry by congruence.
    destruct (text_eqb m n) eqn:E.
    + apply text_eqb_eq in E. subst m. rewrite En in Hq.
      simpl in Hpre. apply (IH x x' q Hx Hq Hpre).
    + exact Hq.
  - injection Hm as <-. rewrite stat_cons, entry_app.
    destruct (entry es m) as [y|] eqn:Em; [exact Hq|].
    simpl. destruct (text_eqb m n) eqn:E; [|reflexivity].
    simpl in Hpre. rewrite stat_fresh_dirs, Hpre. reflexivity.
Qed.

(** The directory [os.makedirs] creates is empty. *)
Lemma makedirs_creates_empty p : forall fs fs',
  makedirs fs p = Ok fs' -> stat fs' p = Ok (Dir []).
Proof.
  induction p as [|n p IH]; intros fs fs' Hm; [discriminate|].
  destruct fs as [c|es]; [discriminate|]. simpl in Hm.
  destruct (entry es n) as [x|] eqn:En.
  - destruct (makedirs x p) as [x'|e] eqn:Hx; [|discriminate].
    injection Hm as <-. rewrite stat_cons, entry_set_entry by congruence.
    rewrite text_eqb_refl. now apply IH with x.
  - injection Hm as <-. rewrite stat_cons, entry_app, En. simpl.
    rewrite text_eqb_refl, stat_fresh_dirs.
    assert (Hp : forall r : path, is_prefix r r = true).
    { induction r; simpl; auto. now rewrite text_eqb_refl. }
    now rewrite Hp, skipn_all.
Qed.

Lemma fresh_dirs_no_file p : forall q c, stat (fresh_dirs p) q <> Ok (File c).
Proof.
  intros q c. rewrite stat_fresh_dirs.
  destruct (is_prefix q p); [|discriminate].
  destruct (skipn (length q) p); discriminate.
Qed.

(** [os.makedirs] writes no file: the regular files and their contents
    are the same before and after. *)
Lemma makedirs_keeps_files p : forall fs fs' q c,
  makedirs fs p = Ok fs' ->
  (stat fs' q = Ok (File c) <-> stat fs q = Ok (File c)).
Proof.
  induction p as [|n p IH]; intros fs fs' q c Hm; [discriminate|].
  destruct fs as [c0|es]; [discriminate|]. simpl in Hm.
  destruct (entry es n) as [x|] eqn:En.
  - destruct (makedirs x p) as [x'|e] eqn:Hx; [|discriminate].
    injection Hm as <-. destruct q as [|m q]; [simpl; split; discriminate|].
    rewrite !stat_cons, entry_set_entry by congruence.
    destruct (text_eqb m n) eqn:E; [|tauto].
    apply text_eqb_eq in E. subst m. rewrite En. now apply IH.
  - injection Hm as <-. destruct q as [|m q]; [simpl; split; discriminate|].
    rewrite !stat_cons, entry_app.
    destruct (entry es m) as [y|] eqn:Em; [tauto|].
    simpl. destruct (text_eqb m n); [|tauto].
    split; [|discriminate]. intros H. now apply fresh_dirs_no_file in H.
Qed.

Lemma read_file_ok fs q c : read_file fs q = Ok c <-> stat fs q = Ok (File c).
Proof.
  unfold read_file. destruct (stat fs q) as [[c'|es]|e]; split;
    intros H; try discriminate; congruence.
Qed.

Lemma listdir_missing fs q :
  path_exists fs q = false -> exists e, listdir fs q = Raise e.
Proof.
  unfold path_exists, listdir. destruct (stat fs q) as [x|e]; [discriminate|].
  eauto.
Qed.

(** ** The batch operation *)

Lemma process_directory_unfold input_dir output_dir root out :
  process_directory input_dir output_dir (World root out) =
  if path_exists root output_dir then
    match listdir root input_dir with
    | Ok filenames =>
        for_each filenames (process_entry input_dir output_dir)
                 (World root out)
    | Raise e => (Raise e, World root out)
    end
  else
    match makedirs root output_dir with
    | Ok root1 =>
        match listdir root1 input_dir with
        | Ok filenames =>
            for_each filenames (process_entry input_dir output_dir)
                     (World root1 out)
        | Raise e => (Raise e, World root1 out)
        end
    | Raise e => (Raise e, World root out)
    end.
Proof.
  unfold process_directory, bind, os_path_exists, os_makedirs, os_listdir,
    query, lift_fs, ret. simpl.
  destruct (path_exists root output_dir); simpl.
  - reflexivity.
  - destruct (makedirs root output_dir); reflexivity.
Qed.

(** C7, as the script behaves.  When the input directory does not exist
    and is neither the output directory nor an ancestor of it, the run
    fails with an I/O error, prints nothing and writes no file.  The
    output directory is dealt with before the input directory is listed:
    at the failure an output directory that already existed leaves the
    tree untouched, and one that was absent and could be created exists
    and is empty. *)
Theorem missing_input_directory_fails root input_dir output_dir :
  path_exists root input_dir = false ->
  is_prefix input_dir output_dir = false ->
  exists e root',
    run (process_directory input_dir output_dir) root
    = (Raise e, World root' [])
    /\ (forall q c, read_file root' q = Ok c <-> read_file root q = Ok c)
    /\ (path_exists root output_dir = true -> root' = root)
    /\ (forall root1,
          path_exists root output_dir = false ->
          makedirs root output_dir = Ok root1 ->
          root' = root1 /\ listdir root' output_dir = Ok []).
Proof.
  intros Hin Hpre. unfold run. rewrite process_directory_unfold.
  destruct (path_exists root output_dir) eqn:Hout.
  - destruct (listdir_missing root input_dir Hin) as (e & ->).
    exists e, root. repeat split; auto; try tauto; discriminate.
  - destruct (makedirs root output_dir) as [root1|e] eqn:Hm.
    + pose proof (makedirs_keeps_missing _ _ _ Hm Hin Hpre) as Hin1.
      destruct (listdir_missing root1 input_dir Hin1) as (e & ->).
      exists e, root1. split; [reflexivity|]. split; [|split].
      * intros q c. rewrite !read_file_ok.
        now apply makedirs_keeps_files with output_dir.
      * discriminate.
      * intros r _ [= <-]. split; auto.
        unfold listdir. now rewrite (makedirs_creates_empty _ _ Hm).
    + exists e, root. repeat split; auto; try tauto; discriminate.
Qed.

(** Two distinct directories, neither of which exists, under an empty
    working directory. *)
Lemma missing_input_directory_example :
  path_exists (Dir []) [py "old"] = false
  /\ is_prefix [py "old"] [py "new"] = false
  /\ exists e root',
      run (process_directory [py "old"] [py "new"]) (Dir [])
      = (Raise e, World root' [])
      /\ (forall q c, read_file root' q = Ok c <-> read_file (Dir []) q = Ok c)
      /\ (path_exists (Dir []) [py "new"] = true -> root' = Dir [])
      /\ (forall root1,
            path_exists (Dir []) [py "new"] = false ->
            makedirs (Dir []) [py "new"] = Ok root1 ->
            root' = root1 /\ listdir root' [py "new"] = Ok []).
Proof.
  split; [reflexivity|]. split; [reflexivity|].
  apply (@missing_input_directory_fails (Dir []) [py "old"] [py "new"]);
    reflexivity.
Defined.

(** C7 as stated fails when the input directory is the output directory
    (or an ancestor of it): creating the output directory creates the
    input directory, and the run ends without an error. *)
Lemma missing_input_directory_created_by_run :
  path_exists (Dir []) [py "graphs"] = false
  /\ run (process_directory [py "graphs"] [py "graphs"]) (Dir [])
     = (Ok tt, World (Dir [(py "graphs", Dir [])]) []).
Proof. split; reflexivity. Qed.

Lemma for_each_app A (l1 l2 : list A) (body : A -> IO unit) w :
  for_each (l1 ++ l2) body w =
  match for_each l1 body w with
  | (Ok _, w') => for_each l2 body w'
  | (Raise e, w') => (Raise e, w')
  end.
Proof.
  revert w. induction l1 as [|a l1 IH]; intros w; simpl.
  - reflexivity.
  - unfold bind. destruct (body a w) as [[[]|e] w']; auto.
Qed.



(** A run over a directory holding only such entries, a subdirectory
    among them, creates the output directory and nothing else. *)
Example run_over_non_ron_entries :
  run (process_directory [py "old"] [py "new"])
      (Dir [(py "old", Dir [(py "notes", Dir []);
                            (py "c.txt", File (py "text"))])])
  = (Ok tt,
     World (Dir [(py "old", Dir [(py "notes", Dir []);
                                 (py "c.txt", File (py "text"))]);
                 (py "new", Dir [])]) []).
Proof. reflexivity. Qed.


(** ** The entry point on a directory of three files *)

Lemma app_eq_pair A (x y : A) l1 l2 :
  l1 ++ l2 = [x; y] ->
  (l1 = [] /\ l2 = [x; y]) \/ (l1 = [x] /\ l2 = [y])
  \/ (l1 = [x; y] /\ l2 = []).
Proof.
  destruct l1 as [|u [|v [|w l1]]]; simpl; intros H.
  - auto.
  - injection H as -> ->. auto.
  - injection H as -> -> ->. auto.
  - discriminate.
Qed.

Lemma perm3 A (a b c : A) l :
  Permutation l [a; b; c] ->
  l = [a; b; c] \/ l = [a; c; b] \/ l = [b; a; c]
  \/ l = [b; c; a] \/ l = [c; a; b] \/ l = [c; b; a].
Proof.
  intros H.
  destruct (Permutation_vs_cons_inv H) as (l1 & l2 & ->).
  apply Permutation_sym, Permutation_cons_app_inv in H.
  apply Permutation_length_2_inv in H.
  destruct H as [H|H]; apply app_eq_pair in H;
    destruct H as [[-> ->]|[[-> ->]|[-> ->]]]; simpl; auto 7.
Qed.

Lemma update_cons es n p f :
  update (Dir es) (n :: p) f =
  match entry es n, p with
  | Some x, _ =>
      match update x p f with
      | Ok x' => Ok (Dir (set_entry es n x'))
      | Raise e => Raise e
      end
  | None, [] =>
      match f None with
      | Ok x => Ok (Dir (es ++ [(n, x)]))
      | Raise e => Raise e
      end
  | None, _ :: _ => Raise FileNotFoundError
  end.
Proof. reflexivity. Qed.

Section Scenario.

(** The working directory holds the input directory, with entries [es],
    and no output directory yet. *)
Variable cwd : list (name * node).
Variable es : list (name * node).
Hypothesis Hin : entry cwd (py "animation_graphs_old") = Some (Dir es).
Hypothesis Hout : entry cwd (py "animation_graphs") = None.

Lemma stat_input out p :
  stat (with_output cwd out) (py "animation_graphs_old" :: p)
  = stat (Dir es) p.
Proof.
  unfold with_output. now rewrite stat_cons, entry_app, Hin.
Qed.

Lemma stat_output out p :
  stat (with_output cwd out) (py "animation_graphs" :: p)
  = stat (Dir out) p.
Proof.
  unfold with_output. rewrite stat_cons, entry_app, Hout.
  simpl entry. reflexivity.
Qed.

Lemma write_output out f c :
  entry out f = None ->
  write_file (with_output cwd out) [py "animation_graphs"; f] c
  = Ok (with_output cwd (out ++ [(f, File c)])).
Proof.
  intros Hf. unfold write_file, with_output.
  rewrite update_cons, entry_app, Hout. simpl entry. cbv iota beta.
  rewrite update_cons, Hf.
  now rewrite set_entry_app_new.
Qed.

Lemma process_ron_file out f c lines :
  endswith f (py ".ron") = true ->
  entry es f = Some (File c) -> entry out f = None ->
  process_entry input_directory output_directory f
                (World (with_output cwd out) lines)
  = (Ok tt,
     World (with_output cwd (out ++ [(f, File (transform c))]))
           (lines ++ [py "Transformed " ++ f])).
Proof.
  intros He Hf Ho. unfold process_entry. rewrite He.
  unfold transform_ron_file, bind, open_read, open_write, query, lift_fs,
    print, os_path_join, input_directory, output_directory.
  cbn [fs console app].
  unfold read_file. rewrite stat_input, stat_cons, Hf. cbn [stat].
  now rewrite write_output.
Qed.

Lemma start_of_run :
  run main (Dir cwd)
  = match for_each (map fst es)
            (process_entry input_directory output_directory)
            (World (with_output cwd []) []) with
    | (Ok _, w) => print (py "Transformation complete.") w
    | (Raise e, w) => (Raise e, w)
    end.
Proof.
  unfold run, main, bind. rewrite process_directory_unfold.
  unfold path_exists, input_directory, output_directory.
  rewrite stat_cons, Hout. cbn [makedirs]. rewrite Hout.
  change (Dir (cwd ++ [(py "animation_graphs", fresh_dirs [])]))
    with (with_output cwd []).
  unfold listdir. rewrite stat_input. reflexivity.
Qed.

End Scenario.

Lemma for_each_cons A (a : A) l (body : A -> IO unit) w :
  for_each (a :: l) body w =
  match body a w with
  | (Ok _, w') => for_each l body w'
  | (Raise e, w') => (Raise e, w')
  end.
Proof. reflexivity. Qed.

Lemma process_entry_skip input_dir output_dir filename w :
  endswith filename (py ".ron") = false ->
  process_entry input_dir output_dir filename w = (Ok tt, w).
Proof. intros H. unfold process_entry. now rewrite H. Qed.

Ltac run_entries Hin Hout :=
  rewrite start_of_run with (es := _) by (exact Hin || exact Hout); cbn [map fst];
  repeat (rewrite for_each_cons;
          first [ rewrite process_ron_file with (es := _) (c := _)
                    by (exact Hin || exact Hout || reflexivity)
                | rewrite process_entry_skip by reflexivity ]);
  cbn [for_each]; unfold ret, print; cbn [fs console app].

Ltac check_output Hin Hout :=
  repeat split;
  try reflexivity;
  try (unfold read_file; rewrite stat_output by exact Hout; reflexivity);
  try (rewrite stat_output by exact Hout; reflexivity);
  try (unfold input_directory; rewrite stat_input with (es := _) by exact Hin; reflexivity).

(** C6.  The working directory holds the input directory with exactly
    the files [a.ron], [b.ron] and [c.txt], listed in any order, and no
    output directory.  The entry point then ends without error; the
    output directory it produces holds [a.ron] and [b.ron], each the
    transform of its source, and no [c.txt]; the console shows one line
    [Transformed <filename>] per processed file, in the order of the
    listing, and then the line [Transformation complete.]; the input
    directory is as it was. *)
Theorem batch_of_three_files cwd es ca cb cc :
  entry cwd (py "animation_graphs_old") = Some (Dir es) ->
  entry cwd (py "animation_graphs") = None ->
  Permutation es [ (py "a.ron", File ca); (py "b.ron", File cb);
                   (py "c.txt", File cc) ] ->
  exists root' first second,
    run main (Dir cwd)
    = (Ok tt,
       World root' [ py "Transformed " ++ first;
                     py "Transformed " ++ second;
                     py "Transformation complete." ])
    /\ [first; second]
       = filter (fun n => endswith n (py ".ron")) (map fst es)
    /\ read_file root' [py "animation_graphs"; py "a.ron"]
       = Ok (transform ca)
    /\ read_file root' [py "animation_graphs"; py "b.ron"]
       = Ok (transform cb)
    /\ stat root' [py "animation_graphs"; py "c.txt"]
       = Raise FileNotFoundError
    /\ (exists names,
          listdir root' output_directory = Ok names
          /\ Permutation names [py "a.ron"; py "b.ron"])
    /\ stat root' input_directory = Ok (Dir es).
Proof.
  intros Hin Hout Hes. apply perm3 in Hes.
  destruct Hes as [ -> | [ -> | [ -> | [ -> | [ -> | -> ]]]]];
    run_entries Hin Hout.
  all: do 3 eexists; split; [reflexivity|].
  all: check_output Hin Hout.
  all: eexists; split;
    [ unfold listdir, output_directory;
      rewrite stat_output by exact Hout; reflexivity
    | first [ apply Permutation_refl | apply perm_swap ] ].
Qed.

(** The listing order [b.ron], [c.txt], [a.ron], in an otherwise empty
    working directory. *)
Lemma batch_of_three_files_example :
  exists root' first second,
    run main (Dir [ (py "animation_graphs_old",
                     Dir [ (py "b.ron", File (py "plain text"));
                           (py "c.txt", File (py "(name: 'N', ty: 'T', inner: (x))"));
                           (py "a.ron", File (py "(name: 'N', ty: 'T', inner: (x))")) ]) ])
    = (Ok tt,
       World root' [ py "Transformed " ++ first;
                     py "Transformed " ++ second;
                     py "Transformation complete." ])
    /\ [first; second]
       = filter (fun n => endswith n (py ".ron"))
                (map fst [ (py "b.ron", File (py "plain text"));
                           (py "c.txt", File (py "(name: 'N', ty: 'T', inner: (x))"));
                           (py "a.ron", File (py "(name: 'N', ty: 'T', inner: (x))")) ])
    /\ read_file root' [py "animation_graphs"; py "a.ron"]
       = Ok (transform (py "(name: 'N', ty: 'T', inner: (x))"))
    /\ read_file root' [py "animation_graphs"; py "b.ron"]
       = Ok (transform (py "plain text"))
    /\ stat root' [py "animation_graphs"; py "c.txt"]
       = Raise FileNotFoundError
    /\ (exists names,
          listdir root' output_directory = Ok names
          /\ Permutation names [py "a.ron"; py "b.ron"])
    /\ stat root' input_directory
       = Ok (Dir [ (py "b.ron", File (py "plain text"));
                   (py "c.txt", File (py "(name: 'N', ty: 'T', inner: (x))"));
                   (py "a.ron", File (py "(name: 'N', ty: 'T', inner: (x))")) ]).
Proof.
  apply (@batch_of_three_files
           [ (py "animation_graphs_old",
              Dir [ (py "b.ron", File (py "plain text"));
                    (py "c.txt", File (py "(name: 'N', ty: 'T', inner: (x))"));
                    (py "a.ron", File (py "(name: 'N', ty: 'T', inner: (x))")) ]) ]
           _ (py "(name: 'N', ty: 'T', inner: (x))") (py "plain text")
           (py "(name: 'N', ty: 'T', inner: (x))")).
  - reflexivity.
  - reflexivity.
  - apply Permutation_sym.
    apply (@perm_trans _ _ [ (py "a.ron", File (py "(name: 'N', ty: 'T', inner: (x))"));
                             (py "c.txt", File (py "(name: 'N', ty: 'T', inner: (x))"));
                             (py "b.ron", File (py "plain text")) ]).
    + apply perm_skip, perm_swap.
    + apply (@perm_trans _ _ [ (py "c.txt", File (py "(name: 'N', ty: 'T', inner: (x))"));
                               (py "a.ron", File (py "(name: 'N', ty: 'T', inner: (x))"));
                               (py "b.ron", File (py "plain text")) ]).
      * apply perm_swap.
      * apply (@perm_trans _ _ [ (py "c.txt", File (py "(name: 'N', ty: 'T', inner: (x))"));
                                 (py "b.ron", File (py "plain text"));
                                 (py "a.ron", File (py "(name: 'N', ty: 'T', inner: (x))")) ]).
        -- apply perm_skip, perm_swap.
        -- apply perm_swap.
Defined.

(** * Further properties of the script *)

(** ** The pattern *)

(** X1.  The occurrences of the pattern are exactly the well-formed
    fragments: an opening parenthesis, the keys [name:], [ty:] and
    [inner:] in that order, each followed by its value, with white space
    allowed in six places, a name and a type tag that are non-empty and
    free of double quotes, and an inner text that is non-empty and free of
    closing parentheses.  The groups are the name, the type tag and the
    inner text with its parentheses. *)
Theorem occurrences_are_fragments m g :
  matches pattern m [] g <->
  exists p, parts_ok p = true /\ m = fragment p /\ g = caps_of p.
Proof.
  split.
  - intros M. destruct (pattern_matches_inv M) as (p & Hp & E1 & E2).
    exists p. auto.
  - intros (p & Hp & E1 & E2). subst. now apply pattern_matches_fragment.
Qed.

(** X2.  At a given position the match is unique: whatever follows, the
    matcher returns the one occurrence the text starts with, with its
    groups and the text after it, and two occurrences that start a common
    text are the same occurrence.  Backtracking never changes the outcome
    for this pattern. *)
Theorem match_at_a_position_is_unique m g rest :
  matches pattern m [] g ->
  re_match pattern (m ++ rest) = Some (g, rest)
  /\ (forall m' g' rest',
        matches pattern m' [] g' -> m' ++ rest' = m ++ rest ->
        m' = m /\ g' = g /\ rest' = rest).
Proof.
  intros M. apply pattern_matches_inv in M. destruct M as (p & Hp & -> & ->).
  split.
  - now apply re_match_fragment.
  - intros m' g' rest' M' E.
    apply pattern_matches_inv in M'. destruct M' as (p' & Hp' & -> & ->).
    apply fragment_unique in E; auto using parts_ok_shaped.
    destruct E as [-> ->]. auto.
Qed.

Lemma match_at_a_position_example :
  matches pattern (py "(name: 'A', ty: 'T', inner: (x: 1)") []
          [ (3, py "(x: 1)"); (2, py "T"); (1, py "A") ]
  /\ re_match pattern (py "(name: 'A', ty: 'T', inner: (x: 1)" ++ py "), rest")
     = Some ([ (3, py "(x: 1)"); (2, py "T"); (1, py "A") ], py "), rest").
Proof.
  assert (M : matches pattern (py "(name: 'A', ty: 'T', inner: (x: 1)") []
                      [ (3, py "(x: 1)"); (2, py "T"); (1, py "A") ]).
  { apply (@pattern_matches_fragment
             (Parts [] (py " ") (py " ") (py " ") (py " ") (py " ")
                    (py "A") (py "T") (py "x: 1"))).
    reflexivity. }
  split; [exact M|].
  exact (proj1 (@match_at_a_position_is_unique _ _ (py "), rest") M)).
Defined.

(** ** What a rewrite does to the delimiters *)

Ltac count_literals :=
  rewrite ?count_app;
  repeat match goal with
         | |- context [count ?c (py ?s)] =>
             let n := eval vm_compute in (count c (py s)) in
             change (count c (py s)) with n
         end.






(** ** Where the transform can act *)

Lemma length_nonempty (t : text) : nonempty t = true -> 1 <= length t.
Proof. destruct t; [discriminate|]. simpl. lia. Qed.

Lemma fragment_lower_bounds p :
  parts_ok p = true ->
  2 <= count LPAREN (fragment p) /\ 1 <= count RPAREN (fragment p)
  /\ 4 <= count DQUOTE (fragment p) /\ 26 <= length (fragment p).
Proof.
  intros Hp. apply parts_ok_inv in Hp.
  destruct Hp as (_ & _ & (Nn & Nt & Ni)).
  apply length_nonempty in Nn, Nt, Ni.
  unfold fragment. repeat split.
  - count_literals. lia.
  - count_literals. lia.
  - count_literals. lia.
  - rewrite !length_app.
    repeat match goal with
           | |- context [length (py ?s)] =>
               let n := eval vm_compute in (length (py s)) in
               change (length (py s)) with n
           end.
    lia.
Qed.

(** X4.  An occurrence of the pattern holds two opening parentheses, a
    closing one and four double quotes at least, and is 26 characters long
    at least; a text that lacks any of these is returned unchanged. *)
Theorem transform_needs_delimiters s :
  count LPAREN s < 2 \/ count RPAREN s < 1 \/ count DQUOTE s < 4
  \/ length s < 26 ->
  transform s = s.
Proof.
  intros H. apply transform_no_match. intros pre t ->.
  destruct (re_match pattern t) as [[g rest]|] eqn:M; auto. exfalso.
  apply re_match_pattern_iff in M. destruct M as (p & Hp & -> & _).
  destruct (fragment_lower_bounds p Hp) as (B1 & B2 & B3 & B4).
  rewrite !count_app, !length_app in H. lia.
Qed.

Lemma transform_needs_delimiters_example :
  (count LPAREN (py "(name: 'A', ty: 'T', inner: [x: 1])") < 2
   \/ count RPAREN (py "(name: 'A', ty: 'T', inner: [x: 1])") < 1
   \/ count DQUOTE (py "(name: 'A', ty: 'T', inner: [x: 1])") < 4
   \/ length (py "(name: 'A', ty: 'T', inner: [x: 1])") < 26)
  /\ transform (py "(name: 'A', ty: 'T', inner: [x: 1])")
     = py "(name: 'A', ty: 'T', inner: [x: 1])".
Proof.
  assert (H : count LPAREN (py "(name: 'A', ty: 'T', inner: [x: 1])") < 2
              \/ count RPAREN (py "(name: 'A', ty: 'T', inner: [x: 1])") < 1
              \/ count DQUOTE (py "(name: 'A', ty: 'T', inner: [x: 1])") < 4
              \/ length (py "(name: 'A', ty: 'T', inner: [x: 1])") < 26).
  { left. vm_compute. lia. }
  split; [exact H|].
  exact (@transform_needs_delimiters _ H).
Defined.

Lemma transform_paren_free_prefix a : forall b,
  count LPAREN a = 0 -> transform (a ++ b) = a ++ transform b.
Proof.
  induction a as [|c a IH]; intros b H; [reflexivity|].
  rewrite count_cons in H. simpl app.
  rewrite transform_copy.
  - f_equal. apply IH. lia.
  - destruct (re_match pattern (c :: a ++ b)) as [[g rest]|] eqn:M; auto.
    exfalso. apply re_match_pattern_iff in M.
    destruct M as (p & _ & E & _).
    destruct (fragment_cons p) as (u & Hu). rewrite Hu in E.
    simpl in E. injection E as -> _. simpl in H. lia.
Qed.

(** X5.  Nodes are rewritten independently of one another: the text up
    to the first opening parenthesis is copied, a well-formed node is
    replaced by its rewritten form whatever follows it, and the text
    between two nodes, when it holds no opening parenthesis, is copied
    between the two rewritten nodes. *)
Theorem independent_fragments p1 p2 a b rest :
  parts_ok p1 = true -> parts_ok p2 = true ->
  count LPAREN a = 0 -> count LPAREN b = 0 ->
  transform (a ++ fragment p1 ++ b ++ fragment p2 ++ rest)
  = a ++ replace_node (caps_of p1) ++ b ++ replace_node (caps_of p2)
      ++ transform rest.
Proof.
  intros H1 H2 Ha Hb.
  rewrite transform_paren_free_prefix by exact Ha.
  rewrite transform_fragment by exact H1.
  rewrite transform_paren_free_prefix by exact Hb.
  rewrite transform_fragment by exact H2.
  reflexivity.
Qed.

Lemma independent_fragments_example :
  transform (py "[ (name: 'A', ty: 'T', inner: (x: 1)), (name:'B',ty:'U',inner:(y)) ]")
  = py "[ " ++ replace_node [ (3, py "(x: 1)"); (2, py "T"); (1, py "A") ]
    ++ py "), " ++ replace_node [ (3, py "(y)"); (2, py "U"); (1, py "B") ]
    ++ transform (py ") ]").
Proof.
  exact (@independent_fragments
           (Parts [] (py " ") (py " ") (py " ") (py " ") (py " ")
                  (py "A") (py "T") (py "x: 1"))
           (Parts [] [] [] [] [] [] (py "B") (py "U") (py "y"))
           (py "[ ") (py "), ") (py ") ]")
           eq_refl eq_refl eq_refl eq_refl).
Defined.

(** ** Which entries are processed *)

Lemma endswith_iff s suffix :
  endswith s suffix = true <-> exists stem, s = stem ++ suffix.
Proof.
  unfold endswith. split.
  - intros H. apply andb_prop in H. destruct H as [H _].
    remember (length s - length suffix) as k.
    apply text_eqb_eq in H. exists (firstn k s).
    rewrite <- H. symmetry. apply firstn_skipn.
  - intros (stem & ->). rewrite length_app, Nat.add_sub.
    rewrite skipn_app, skipn_all, Nat.sub_diag. simpl.
    rewrite text_eqb_refl. simpl. apply Nat.leb_le. lia.
Qed.

Lemma console_grows (l : list text) x : l ++ [x] <> l.
Proof.
  intros E. apply (f_equal (@length _)) in E.
  rewrite length_app in E. simpl in E. lia.
Qed.

(** X6.  The loop handles an entry exactly when its name is some stem,
    possibly empty, followed by [.ron]: for such a name the body never
    returns with the world as it was (it stops with an error or prints a
    line), and for any other name it returns at once. *)
Theorem entries_are_selected_by_suffix input_dir output_dir filename w :
  process_entry input_dir output_dir filename w = (Ok tt, w)
  <-> ~ (exists stem, filename = stem ++ py ".ron").
Proof.
  rewrite <- endswith_iff. unfold process_entry.
  destruct (endswith filename (py ".ron")) eqn:E.
  - split; [|intros H; now destruct H].
    unfold transform_ron_file, bind, open_read, open_write, query, lift_fs,
      print.
    destruct (read_file (fs w) (os_path_join input_dir filename));
      [|discriminate].
    destruct (write_file (fs w) (os_path_join output_dir filename)
                         (transform a)); [|discriminate].
    simpl. intros H. injection H as H. destruct w as [root lines].
    simpl in H. injection H as _ H. now apply console_grows in H.
  - split; [discriminate | reflexivity].
Qed.

(** ** Reading back what was written *)

Lemma text_eqb_sym a b : text_eqb a b = text_eqb b a.
Proof.
  destruct (text_eqb a b) eqn:E, (text_eqb b a) eqn:E'; auto.
  - apply text_eqb_eq in E. subst. rewrite text_eqb_refl in E'. discriminate.
  - apply text_eqb_eq in E'. subst. rewrite text_eqb_refl in E. discriminate.
Qed.

Lemma text_eqb_neq a b : a <> b -> text_eqb a b = false.
Proof.
  intros H. destruct (text_eqb a b) eqn:E; auto.
  apply text_eqb_eq in E. contradiction.
Qed.

Lemma write_then_read p : forall fs fs' c,
  write_file fs p c = Ok fs' -> stat fs' p = Ok (File c).
Proof.
  unfold write_file.
  induction p as [|n p IH]; intros fs fs' c H.
  - simpl in H. destruct fs; [|discriminate]. now injection H as <-.
  - destruct fs as [c0|es]; [discriminate|]. rewrite update_cons in H.
    destruct (entry es n) as [x|] eqn:En.
    + destruct (update x p _) as [x'|e] eqn:Hx; [|discriminate].
      injection H as <-. rewrite stat_cons, entry_set_entry by congruence.
      rewrite text_eqb_refl. now apply IH with x.
    + destruct p; [|discriminate]. injection H as <-.
      rewrite stat_cons, entry_app, En. simpl. now rewrite text_eqb_refl.
Qed.

Lemma write_keeps_other_files p : forall fs fs' c q c',
  write_file fs p c = Ok fs' -> q <> p ->
  (stat fs' q = Ok (File c') <-> stat fs q = Ok (File c')).
Proof.
  unfold write_file.
  induction p as [|n p IH]; intros fs fs' c q c' H Hq.
  - simpl in H. destruct fs; [|discriminate]. injection H as <-.
    destruct q; [congruence|]. simpl. split; discriminate.
  - destruct fs as [c0|es]; [discriminate|]. rewrite update_cons in H.
    destruct q as [|m q].
    + destruct (entry es n) as [x|].
      * destruct (update x p _); [|discriminate]. injection H as <-.
        simpl. split; discriminate.
      * destruct p; [|discriminate]. injection H as <-.
        simpl. split; discriminate.
    + destruct (entry es n) as [x|] eqn:En.
      * destruct (update x p _) as [x'|e] eqn:Hx; [|discriminate].
        injection H as <-. rewrite !stat_cons, entry_set_entry by congruence.
        destruct (text_eqb m n) eqn:E; [|tauto].
        apply text_eqb_eq in E. subst m. rewrite En.
        apply IH with c; auto. congruence.
      * destruct p; [|discriminate]. injection H as <-.
        rewrite !stat_cons, entry_app.
        destruct (entry es m) as [y|] eqn:Em; [tauto|]. simpl.
        destruct (text_eqb m n) eqn:E; [|tauto].
        apply text_eqb_eq in E. subst m.
        destruct q; [congruence|]. simpl. split; discriminate.
Qed.

(** X7.  [transform_ron_file] prints nothing and touches no file but the
    output file: every other regular file reads as before, whether the
    call succeeds or fails.  When it succeeds the input was a regular file
    and the output file reads as the transform of the input's content
    (the input too is as before, unless it is the output).  When the
    input cannot be read the call fails with the error of that read, the
    output file not having been opened. *)
Theorem transform_ron_file_effect input_file output_file w :
  match transform_ron_file input_file output_file w with
  | (Raise e, w') =>
      console w' = console w
      /\ (forall q c, q <> output_file ->
            (read_file (fs w') q = Ok c <-> read_file (fs w) q = Ok c))
      /\ (forall e', read_file (fs w) input_file = Raise e' ->
            e = e' /\ w' = w)
  | (Ok _, w') =>
      exists content,
        read_file (fs w) input_file = Ok content
        /\ read_file (fs w') output_file = Ok (transform content)
        /\ (forall q c, q <> output_file ->
              (read_file (fs w') q = Ok c <-> read_file (fs w) q = Ok c))
        /\ console w' = console w
  end.
Proof.
  unfold transform_ron_file, bind, open_read, open_write, query, lift_fs.
  destruct (read_file (fs w) input_file) as [content|e] eqn:R.
  2:{ split; [reflexivity|]. split; [tauto|].
      intros e' [= ->]. auto. }
  destruct (write_file (fs w) output_file (transform content))
    as [fs'|e] eqn:W.
  2:{ split; [reflexivity|]. split; [tauto|]. discriminate. }
  exists content. simpl. split; [reflexivity|]. split; [|split; [|reflexivity]].
  - apply read_file_ok. now apply write_then_read with (fs w).
  - intros q c Hq. rewrite !read_file_ok.
    now apply write_keeps_other_files with output_file (transform content).
Qed.

(** ** What a run leaves alone *)

Lemma is_prefix_app_l p r : forall q,
  is_prefix (p ++ r) q = true -> is_prefix p q = true.
Proof.
  induction p as [|n p IH]; intros q H; [reflexivity|].
  destruct q as [|m q]; [discriminate|]. simpl in *.
  apply andb_prop in H. destruct H as [-> H]. simpl. now apply IH.
Qed.

Lemma is_prefix_snoc q : forall p f,
  is_prefix q (p ++ [f]) = true ->
  is_prefix q p = true \/ is_prefix p q = true.
Proof.
  induction q as [|m q IH]; intros p f H; [now left|].
  destruct p as [|n p]; [now right|]. simpl in *.
  apply andb_prop in H. destruct H as [E H].
  rewrite E, (text_eqb_sym n m), E. simpl. now apply IH with f.
Qed.

Lemma apart_snoc q p f : apart q p = true -> apart q (p ++ [f]) = true.
Proof.
  unfold apart. intros H. apply andb_prop in H. destruct H as [H1 H2].
  apply negb_true_iff in H1, H2. apply andb_true_intro. split.
  - apply negb_true_iff. destruct (is_prefix q (p ++ [f])) eqn:E; auto.
    apply is_prefix_snoc in E. destruct E; congruence.
  - apply negb_true_iff. destruct (is_prefix (p ++ [f]) q) eqn:E; auto.
    apply is_prefix_app_l in E. congruence.
Qed.

Lemma apart_cons_inv m q n p :
  apart (m :: q) (n :: p) = true ->
  text_eqb m n = false \/ (m = n /\ apart q p = true).
Proof.
  unfold apart. simpl. rewrite (text_eqb_sym n m).
  destruct (text_eqb m n) eqn:E; simpl; auto.
  apply text_eqb_eq in E. auto.
Qed.

Lemma update_stat_apart p : forall fs fs' f q,
  update fs p f = Ok fs' -> apart q p = true -> stat fs' q = stat fs q.
Proof.
  induction p as [|n p IH]; intros fs fs' f q H Hq.
  - unfold apart in Hq. simpl in Hq. rewrite andb_false_r in Hq. discriminate.
  - destruct q as [|m q]; [unfold apart in Hq; simpl in Hq; discriminate|].
    destruct fs as [c0|es]; [discriminate|]. rewrite update_cons in H.
    apply apart_cons_inv in Hq.
    destruct (entry es n) as [x|] eqn:En.
    + destruct (update x p f) as [x'|e] eqn:Hx; [|discriminate].
      injection H as <-. rewrite !stat_cons, entry_set_entry by congruence.
      destruct Hq as [E|[-> Hq]].
      * now rewrite E.
      * rewrite text_eqb_refl, En. now apply IH with f.
    + destruct p; [|discriminate].
      destruct (f None) as [x|e]; [|discriminate]. injection H as <-.
      rewrite !stat_cons, entry_app.
      destruct Hq as [E|[-> Hq]].
      * simpl. rewrite E. now destruct (entry es m).
      * unfold apart in Hq. simpl in Hq. rewrite andb_false_r in Hq.
        discriminate.
Qed.

Lemma makedirs_stat_apart p : forall fs fs' q,
  makedirs fs p = Ok fs' -> apart q p = true -> stat fs' q = stat fs q.
Proof.
  induction p as [|n p IH]; intros fs fs' q H Hq; [discriminate|].
  destruct q as [|m q]; [unfold apart in Hq; simpl in Hq; discriminate|].
  destruct fs as [c0|es]; [discriminate|]. simpl in H.
  apply apart_cons_inv in Hq.
  destruct (entry es n) as [x|] eqn:En.
  - destruct (makedirs x p) as [x'|e] eqn:Hx; [|discriminate].
    injection H as <-. rewrite !stat_cons, entry_set_entry by congruence.
    destruct Hq as [E|[-> Hq]].
    + now rewrite E.
    + rewrite text_eqb_refl, En. now apply IH.
  - injection H as <-. rewrite !stat_cons, entry_app.
    destruct Hq as [E|[-> Hq]].
    + simpl. rewrite E. now destruct (entry es m).
    + rewrite En. simpl. rewrite text_eqb_refl, stat_fresh_dirs.
      unfold apart in Hq. apply andb_prop in Hq. destruct Hq as [Hq _].
      apply negb_true_iff in Hq. now rewrite Hq.
Qed.

Lemma process_entry_frame input_dir output_dir q filename w :
  apart q output_dir = true ->
  stat (fs (snd (process_entry input_dir output_dir filename w))) q
  = stat (fs w) q.
Proof.
  intros Hq. unfold process_entry.
  destruct (endswith filename (py ".ron")); [|reflexivity].
  unfold transform_ron_file, bind, open_read, open_write, query, lift_fs,
    print, os_path_join.
  destruct (read_file (fs w) (input_dir ++ [filename])); [|reflexivity].
  destruct (write_file (fs w) (output_dir ++ [filename]) (transform a))
    as [fs'|e] eqn:W; [|reflexivity].
  simpl. unfold write_file in W.
  eapply update_stat_apart; [exact W|]. now apply apart_snoc.
Qed.

Lemma for_each_frame input_dir output_dir q filenames : forall w,
  apart q output_dir = true ->
  stat (fs (snd (for_each filenames
                          (process_entry input_dir output_dir) w))) q
  = stat (fs w) q.
Proof.
  induction filenames as [|f l IH]; intros w Hq; [reflexivity|].
  rewrite for_each_cons.
  pose proof (process_entry_frame input_dir output_dir q f w Hq) as Hf.
  destruct (process_entry input_dir output_dir f w) as [[[]|e] w'];
    simpl in Hf.
  - rewrite IH by exact Hq. exact Hf.
  - exact Hf.
Qed.

(** X8.  A run of [process_directory] changes nothing off the path of the
    output directory: whether it succeeds or fails, every path that is
    neither the output directory, nor above it, nor below it resolves to
    the same node as before.  The input directory and its files are
    untouched whenever the two directories lie apart. *)
Theorem process_directory_frame input_dir output_dir w q :
  apart q output_dir = true ->
  stat (fs (snd (process_directory input_dir output_dir w))) q
  = stat (fs w) q.
Proof.
  intros Hq. destruct w as [root lines].
  rewrite process_directory_unfold. simpl fs.
  destruct (path_exists root output_dir).
  - destruct (listdir root input_dir) as [names|e]; [|reflexivity].
    now rewrite for_each_frame.
  - destruct (makedirs root output_dir) as [root1|e] eqn:M; [|reflexivity].
    destruct (listdir root1 input_dir) as [names|e].
    + rewrite for_each_frame by exact Hq. simpl.
      now apply makedirs_stat_apart with output_dir.
    + simpl. now apply makedirs_stat_apart with output_dir.
Qed.

Lemma process_directory_frame_example :
  apart [py "old"; py "a.ron"] [py "new"] = true
  /\ stat (fs (snd (process_directory [py "old"] [py "new"]
                      (World (Dir [(py "old",
                                    Dir [(py "a.ron", File (py "text"))])])
                             []))))
          [py "old"; py "a.ron"]
     = Ok (File (py "text")).
Proof.
  split; [reflexivity|].
  exact (@process_directory_frame [py "old"] [py "new"]
           (World (Dir [(py "old", Dir [(py "a.ron", File (py "text"))])]) [])
           [py "old"; py "a.ron"] eq_refl).
Defined.

(** ** What the console shows *)

Lemma process_entry_console input_dir output_dir filename w :
  exists done,
    console (snd (process_entry input_dir output_dir filename w))
    = console w ++ map (fun f => py "Transformed " ++ f) done.
Proof.
  unfold process_entry.
  destruct (endswith filename (py ".ron"));
    [|exists []; simpl; now rewrite app_nil_r].
  unfold transform_ron_file, bind, open_read, open_write, query, lift_fs,
    print.
  destruct (read_file (fs w) (os_path_join input_dir filename));
    [|exists []; simpl; now rewrite app_nil_r].
  destruct (write_file (fs w) (os_path_join output_dir filename)
                       (transform a));
    [|exists []; simpl; now rewrite app_nil_r].
  exists [filename]. reflexivity.
Qed.

Lemma for_each_console input_dir output_dir filenames : forall w,
  exists done,
    console (snd (for_each filenames
                           (process_entry input_dir output_dir) w))
    = console w ++ map (fun f => py "Transformed " ++ f) done.
Proof.
  induction filenames as [|f l IH]; intros w.
  - exists []. simpl. now rewrite app_nil_r.
  - rewrite for_each_cons.
    destruct (process_entry_console input_dir output_dir f w) as (d1 & H1).
    destruct (process_entry input_dir output_dir f w) as [[[]|e] w'];
      simpl in H1.
    + destruct (IH w') as (d2 & H2). exists (d1 ++ d2).
      now rewrite H2, H1, map_app, app_assoc.
    + now exists d1.
Qed.

Lemma process_directory_console input_dir output_dir w :
  exists done,
    console (snd (process_directory input_dir output_dir w))
    = console w ++ map (fun f => py "Transformed " ++ f) done.
Proof.
  destruct w as [root lines]. rewrite process_directory_unfold.
  destruct (path_exists root output_dir).
  - destruct (listdir root input_dir) as [names|e].
    + apply for_each_console.
    + exists []. simpl. now rewrite app_nil_r.
  - destruct (makedirs root output_dir) as [root1|e].
    + destruct (listdir root1 input_dir) as [names|e].
      * apply (for_each_console input_dir output_dir names (World root1 lines)).
      * exists []. simpl. now rewrite app_nil_r.
    + exists []. simpl. now rewrite app_nil_r.
Qed.

Lemma progress_is_not_completion f :
  py "Transformed " ++ f <> py "Transformation complete.".
Proof. intros H. vm_compute in H. discriminate. Qed.

(** X9.  The console of a run of the entry point holds only lines
    [Transformed <filename>], followed, exactly when the run ended without
    error, by the one line [Transformation complete.]: the completion line
    is never printed after a failure. *)
Theorem completion_line_iff_success root :
  exists done,
    (fst (run main root) = Ok tt
     /\ console (snd (run main root))
        = map (fun f => py "Transformed " ++ f) done
          ++ [py "Transformation complete."])
    \/ ((exists e, fst (run main root) = Raise e)
        /\ console (snd (run main root))
           = map (fun f => py "Transformed " ++ f) done
        /\ ~ In (py "Transformation complete.")
                (console (snd (run main root)))).
Proof.
  unfold run, main, bind.
  destruct (process_directory_console input_directory output_directory
              (World root [])) as (done & H).
  exists done.
  destruct (process_directory input_directory output_directory
              (World root [])) as [[[]|e] w']; simpl in H.
  - left. unfold print. simpl. now rewrite H.
  - right. simpl. split; [eauto|]. split; [exact H|].
    rewrite H. intros Hin. apply in_map_iff in Hin.
    destruct Hin as (f & Hf & _). now apply progress_is_not_completion in Hf.
Qed.

(** ** The guard on the creation of the output directory *)








(** ** The batch over any directory *)

Lemma set_entry_same es n x : entry es n = Some x -> set_entry es n x = es.
Proof.
  induction es as [|[m y] es IH]; simpl; auto.
  destruct (text_eqb n m) eqn:E.
  - intros [= ->]. reflexivity.
  - intros H. now rewrite IH.
Qed.

Lemma put_same es n x : entry es n = Some x -> put es n x = es.
Proof. intros H. unfold put. rewrite H. now apply set_entry_same. Qed.

Lemma put_fresh es n x : entry es n = None -> put es n x = es ++ [(n, x)].
Proof. intros H. unfold put. now rewrite H. Qed.

Lemma entry_none_iff es n : entry es n = None <-> ~ In n (map fst es).
Proof.
  induction es as [|[m y] es IH]; simpl.
  - tauto.
  - destruct (text_eqb n m) eqn:E.
    + apply text_eqb_eq in E. subst. split; [discriminate | tauto].
    + rewrite IH. split.
      * intros H [->|H']; [|tauto]. rewrite text_eqb_refl in E. discriminate.
      * tauto.
Qed.

Lemma entry_nodup es f x :
  NoDup (map fst es) -> In (f, x) es -> entry es f = Some x.
Proof.
  induction es as [|[m y] es IH]; simpl; intros Hn Hi; [tauto|].
  inversion Hn as [|? ? Hm Hn']; subst.
  destruct Hi as [[= -> ->]|Hi].
  - now rewrite text_eqb_refl.
  - destruct (text_eqb f m) eqn:E; [|now apply IH].
    apply text_eqb_eq in E. subst m. exfalso. apply Hm.
    apply in_map_iff. now exists (f, x).
Qed.

Lemma files_only_entry es f x :
  files_only es = true -> entry es f = Some x -> exists c, x = File c.
Proof.
  unfold files_only.
  induction es as [|[m y] es IH]; simpl; intros Hf He; [discriminate|].
  apply andb_prop in Hf. destruct Hf as [Hy Hf].
  destruct (text_eqb f m).
  - injection He as ->. destruct x; [eauto | discriminate].
  - now apply IH.
Qed.

Lemma files_only_set_entry es f c :
  files_only es = true -> files_only (set_entry es f (File c)) = true.
Proof.
  unfold files_only.
  induction es as [|[m y] es IH]; simpl; intros Hf; auto.
  apply andb_prop in Hf. destruct Hf as [Hy Hf].
  destruct (text_eqb f m); simpl.
  - exact Hf.
  - now rewrite Hy, IH.
Qed.

Lemma files_only_put es f c :
  files_only es = true -> files_only (put es f (File c)) = true.
Proof.
  intros H. unfold put. destruct (entry es f).
  - now apply files_only_set_entry.
  - unfold files_only in *. rewrite forallb_app, H. reflexivity.
Qed.

Lemma ron_files_names es f :
  In f (map fst (ron_files es)) -> In f (map fst es).
Proof.
  induction es as [|[m [c|sub]] es IH]; simpl; auto.
  destruct (endswith m (py ".ron")); simpl; tauto.
Qed.

Lemma ron_files_nodup es :
  NoDup (map fst es) -> NoDup (map fst (ron_files es)).
Proof.
  induction es as [|[m [c|sub]] es IH]; simpl; intros H; auto;
    inversion H as [|? ? Hm Hn]; subst; auto.
  destruct (endswith m (py ".ron")); simpl; auto.
  constructor; auto. intros Hi. now apply ron_files_names in Hi.
Qed.

Lemma ron_files_in es f c :
  In (f, c) (ron_files es) ->
  In (f, File c) es /\ endswith f (py ".ron") = true.
Proof.
  induction es as [|[m [c0|sub]] es IH]; simpl; [tauto| |tauto].
  destruct (endswith m (py ".ron")) eqn:E; simpl; [|tauto].
  intros [[= -> ->]|H]; [tauto|]. tauto.
Qed.

Lemma ron_files_app es1 es2 :
  ron_files (es1 ++ es2) = ron_files es1 ++ ron_files es2.
Proof.
  induction es1 as [|[m [c|sub]] es1 IH]; simpl; auto.
  destruct (endswith m (py ".ron")); simpl; now rewrite ?IH.
Qed.

Lemma ron_files_names_filter es :
  ron_regular es = true ->
  map fst (ron_files es)
  = filter (fun n => endswith n (py ".ron")) (map fst es).
Proof.
  induction es as [|[m [c|sub]] es IH]; simpl; intros H; auto.
  - destruct (endswith m (py ".ron")); simpl; now rewrite IH.
  - apply andb_prop in H. destruct H as [E H].
    apply negb_true_iff in E. rewrite E. now apply IH.
Qed.

Lemma fold_put_fresh l : forall out,
  NoDup (map fst l) ->
  (forall f, In f (map fst l) -> entry out f = None) ->
  fold_left (fun o fc => put o (fst fc) (File (transform (snd fc)))) l out
  = out ++ map output_entry l.
Proof.
  induction l as [|[f c] l IH]; intros out Hn Hf; simpl.
  - now rewrite app_nil_r.
  - inversion Hn as [|? ? Hm Hn']; subst.
    rewrite put_fresh by (apply Hf; now left).
    rewrite IH; auto.
    + now rewrite <- app_assoc.
    + intros g Hg. rewrite entry_app, Hf by (now right). simpl.
      rewrite text_eqb_neq; [reflexivity|]. intros ->. contradiction.
Qed.

Lemma entry_output l f c :
  NoDup (map fst l) -> In (f, c) l ->
  entry (map output_entry l) f = Some (File (transform c)).
Proof.
  intros Hn Hi. apply entry_nodup.
  - now rewrite map_map.
  - apply in_map_iff. now exists (f, c).
Qed.

Lemma fold_put_same l : forall out,
  (forall f c, In (f, c) l -> entry out f = Some (File (transform c))) ->
  fold_left (fun o fc => put o (fst fc) (File (transform (snd fc)))) l out
  = out.
Proof.
  induction l as [|[f c] l IH]; intros out H; simpl; auto.
  rewrite put_same by (apply H; now left).
  apply IH. intros g d Hg. apply H. now right.
Qed.

Section Batch.

(** The working directory holds the input directory, with entries [es]
    under distinct names, and no entry named like the output directory. *)
Variable cwd : list (name * node).
Variable es : list (name * node).
Hypothesis Hin : entry cwd (py "animation_graphs_old") = Some (Dir es).
Hypothesis Hout : entry cwd (py "animation_graphs") = None.
Hypothesis Hnames : NoDup (map fst es).

Lemma write_output_put out f c :
  files_only out = true ->
  write_file (with_output cwd out) [py "animation_graphs"; f] c
  = Ok (with_output cwd (put out f (File c))).
Proof.
  intros Hf. unfold write_file, with_output.
  rewrite update_cons, entry_app, Hout. simpl entry. cbv iota beta.
  rewrite update_cons. unfold put.
  destruct (entry out f) as [x|] eqn:E.
  - destruct (files_only_entry _ _ Hf E) as (c0 & ->). simpl update.
    cbv iota beta. now rewrite set_entry_app_new.
  - now rewrite set_entry_app_new.
Qed.

Lemma process_ron_file_put out f c lines :
  endswith f (py ".ron") = true ->
  In (f, File c) es -> files_only out = true ->
  process_entry input_directory output_directory f
                (World (with_output cwd out) lines)
  = (Ok tt,
     World (with_output cwd (put out f (File (transform c))))
           (lines ++ [py "Transformed " ++ f])).
Proof.
  intros He Hf Ho. unfold process_entry. rewrite He.
  unfold transform_ron_file, bind, open_read, open_write, query, lift_fs,
    print, os_path_join, input_directory, output_directory.
  cbn [fs console app].
  unfold read_file.
  rewrite stat_input with (es := es) by exact Hin.
  rewrite stat_cons, (entry_nodup _ _ _ Hnames Hf). cbn [stat].
  now rewrite write_output_put.
Qed.

Lemma run_entries_of todo : forall out lines,
  incl todo es -> ron_regular todo = true -> files_only out = true ->
  for_each (map fst todo) (process_entry input_directory output_directory)
           (World (with_output cwd out) lines)
  = (Ok tt,
     World (with_output cwd
              (fold_left
                 (fun o fc => put o (fst fc) (File (transform (snd fc))))
                 (ron_files todo) out))
           (lines ++ map progress_line (ron_files todo))).
Proof.
  induction todo as [|[f [c|sub]] todo IH]; intros out lines Hi Hr Ho.
  - simpl. now rewrite app_nil_r.
  - assert (Hi' : incl todo es) by (intros x Hx; apply Hi; now right).
    cbn [map fst]. rewrite for_each_cons. simpl in Hr. simpl ron_files.
    destruct (endswith f (py ".ron")) eqn:E.
    + rewrite process_ron_file_put with (c := c);
        auto; [|apply Hi; now left].
      rewrite IH by (auto using files_only_put).
      simpl. now rewrite <- app_assoc.
    + rewrite process_entry_skip by exact E. now apply IH.
  - assert (Hi' : incl todo es) by (intros x Hx; apply Hi; now right).
    cbn [map fst]. rewrite for_each_cons. simpl in Hr. simpl ron_files.
    apply andb_prop in Hr. destruct Hr as [E Hr]. apply negb_true_iff in E.
    rewrite process_entry_skip by exact E. now apply IH.
Qed.

Lemma start_of_rerun out lines :
  main (World (with_output cwd out) lines)
  = match for_each (map fst es)
            (process_entry input_directory output_directory)
            (World (with_output cwd out) lines) with
    | (Ok _, w) => print (py "Transformation complete.") w
    | (Raise e, w) => (Raise e, w)
    end.
Proof.
  unfold main, bind. rewrite process_directory_unfold.
  unfold path_exists, input_directory, output_directory.
  rewrite stat_output by exact Hout. cbn [stat].
  unfold listdir. rewrite stat_input with (es := es) by exact Hin.
  reflexivity.
Qed.

End Batch.

Lemma files_only_outputs l : files_only (map output_entry l) = true.
Proof. unfold files_only. induction l as [|[f c] l IH]; simpl; auto. Qed.

Lemma ron_files_in_conv es f c :
  In (f, File c) es -> endswith f (py ".ron") = true ->
  In (f, c) (ron_files es).
Proof.
  induction es as [|[m [c0|sub]] es IH]; simpl; intros Hi He; [tauto| |].
  - destruct Hi as [[= -> ->]|Hi].
    + rewrite He. now left.
    + destruct (endswith m (py ".ron")); [right|]; now apply IH.
  - destruct Hi as [[=]|Hi]. now apply IH.
Qed.

Lemma progress_lines l :
  map progress_line l = map (fun f => py "Transformed " ++ f) (map fst l).
Proof. now rewrite map_map. Qed.

(** What the output directory shows once it holds the transforms of the
    files [l]. *)
Lemma outputs_facts cwd l :
  entry cwd (py "animation_graphs") = None ->
  NoDup (map fst l) ->
  listdir (with_output cwd (map output_entry l)) output_directory
  = Ok (map fst l)
  /\ (forall f c, In (f, c) l ->
        read_file (with_output cwd (map output_entry l))
                  [py "animation_graphs"; f] = Ok (transform c))
  /\ (forall f, ~ In f (map fst l) ->
        stat (with_output cwd (map output_entry l))
             [py "animation_graphs"; f] = Raise FileNotFoundError).
Proof.
  intros Hout Hn. split; [|split].
  - unfold listdir, output_directory. rewrite stat_output by exact Hout.
    simpl. now rewrite map_map.
  - intros f c Hi. unfold read_file.
    rewrite stat_output, stat_cons by exact Hout.
    now rewrite (entry_output _ _ _ Hn Hi).
  - intros f Hf. rewrite stat_output, stat_cons by exact Hout.
    assert (E : entry (map output_entry l) f = None).
    { apply entry_none_iff. now rewrite map_map. }
    now rewrite E.
Qed.

Lemma first_run cwd es :
  entry cwd (py "animation_graphs_old") = Some (Dir es) ->
  entry cwd (py "animation_graphs") = None ->
  NoDup (map fst es) -> ron_regular es = true ->
  run main (Dir cwd)
  = (Ok tt,
     World (with_output cwd (map output_entry (ron_files es)))
           (map progress_line (ron_files es)
            ++ [py "Transformation complete."])).
Proof.
  intros Hin Hout Hn Hr.
  rewrite start_of_run with (es := es) by assumption.
  rewrite run_entries_of with (es := es);
    auto using incl_refl.
  rewrite fold_put_fresh; auto using ron_files_nodup.
Qed.

(** X11.  The batch over any input directory whose entries named
    [*.ron] are regular files, run from a working directory that has no
    output directory yet: the entry point ends without error; the output
    directory holds the [.ron] names of the input directory, in some
    order, and nothing else; each output file reads as the transform of
    the input file of the same name; the console shows one line per such
    file, in the order the input directory was listed, and then the
    completion line; the input directory is as it was. *)
Theorem batch_over_any_directory cwd es :
  entry cwd (py "animation_graphs_old") = Some (Dir es) ->
  entry cwd (py "animation_graphs") = None ->
  NoDup (map fst es) -> ron_regular es = true ->
  exists root',
    run main (Dir cwd)
    = (Ok tt,
       World root'
             (map (fun f => py "Transformed " ++ f)
                  (filter (fun n => endswith n (py ".ron")) (map fst es))
              ++ [py "Transformation complete."]))
    /\ (exists names,
          listdir root' output_directory = Ok names
          /\ Permutation names
               (filter (fun n => endswith n (py ".ron")) (map fst es)))
    /\ (forall f c,
          In (f, File c) es -> endswith f (py ".ron") = true ->
          read_file root' [py "animation_graphs"; f] = Ok (transform c))
    /\ (forall f,
          endswith f (py ".ron") = false ->
          stat root' [py "animation_graphs"; f] = Raise FileNotFoundError)
    /\ stat root' input_directory = Ok (Dir es).
Proof.
  intros Hin Hout Hn Hr.
  exists (with_output cwd (map output_entry (ron_files es))).
  destruct (outputs_facts cwd (ron_files es) Hout (ron_files_nodup _ Hn))
    as (L & R & S).
  rewrite <- (ron_files_names_filter _ Hr), <- progress_lines.
  split; [apply first_run; assumption|].
  split; [eexists; split; [exact L | apply Permutation_refl]|].
  split; [|split].
  - intros f c Hi He. apply R. now apply ron_files_in_conv.
  - intros f He. apply S. intros Hi. apply in_map_iff in Hi.
    destruct Hi as ([g c] & <- & Hi). apply ron_files_in in Hi.
    simpl in He. destruct Hi as [_ Hi]. congruence.
  - unfold input_directory. now rewrite stat_input with (es := es).
Qed.

Lemma batch_over_any_directory_example :
  exists root',
    run main (Dir [ (py "animation_graphs_old",
                     Dir [ (py "z.ron", File (py "(name: 'N', ty: 'T', inner: (x))"));
                           (py "sub", Dir []);
                           (py ".ron", File (py "plain")) ]) ])
    = (Ok tt,
       World root'
             (map (fun f => py "Transformed " ++ f)
                  (filter (fun n => endswith n (py ".ron"))
                          (map fst [ (py "z.ron", File (py "(name: 'N', ty: 'T', inner: (x))"));
                                     (py "sub", Dir []);
                                     (py ".ron", File (py "plain")) ]))
              ++ [py "Transformation complete."]))
    /\ (exists names,
          listdir root' output_directory = Ok names
          /\ Permutation names
               (filter (fun n => endswith n (py ".ron"))
                       (map fst [ (py "z.ron", File (py "(name: 'N', ty: 'T', inner: (x))"));
                                  (py "sub", Dir []);
                                  (py ".ron", File (py "plain")) ])))
    /\ (forall f c,
          In (f, File c) [ (py "z.ron", File (py "(name: 'N', ty: 'T', inner: (x))"));
                           (py "sub", Dir []);
                           (py ".ron", File (py "plain")) ] ->
          endswith f (py ".ron") = true ->
          read_file root' [py "animation_graphs"; f] = Ok (transform c))
    /\ (forall f,
          endswith f (py ".ron") = false ->
          stat root' [py "animation_graphs"; f] = Raise FileNotFoundError)
    /\ stat root' input_directory
       = Ok (Dir [ (py "z.ron", File (py "(name: 'N', ty: 'T', inner: (x))"));
                   (py "sub", Dir []);
                   (py ".ron", File (py "plain")) ]).
Proof.
  apply (@batch_over_any_directory
           [ (py "animation_graphs_old",
              Dir [ (py "z.ron", File (py "(name: 'N', ty: 'T', inner: (x))"));
                    (py "sub", Dir []);
                    (py ".ron", File (py "plain")) ]) ]).
  - reflexivity.
  - reflexivity.
  - repeat constructor; simpl; intros H;
      repeat (destruct H as [H|H]; [discriminate H|]); exact H.
  - reflexivity.
Defined.

(** X12.  Running the entry point a second time is harmless: under the
    conditions of the batch, the second run finds the output directory,
    rewrites each output file with the content it already has and leaves
    the whole tree as the first run left it; it prints the same lines
    again. *)
Theorem second_run_changes_nothing cwd es :
  entry cwd (py "animation_graphs_old") = Some (Dir es) ->
  entry cwd (py "animation_graphs") = None ->
  NoDup (map fst es) -> ron_regular es = true ->
  exists w1,
    run main (Dir cwd) = (Ok tt, w1)
    /\ main w1 = (Ok tt, World (fs w1) (console w1 ++ console w1)).
Proof.
  intros Hin Hout Hn Hr. eexists.
  split; [apply first_run with (es := es); assumption|].
  rewrite start_of_rerun with (es := es) by assumption.
  rewrite run_entries_of with (es := es);
    auto using incl_refl, files_only_outputs.
  rewrite fold_put_same.
  - unfold print. simpl. now rewrite <- app_assoc.
  - intros f c Hi. now apply entry_output; [apply ron_files_nodup|].
Qed.

Lemma second_run_example :
  exists w1,
    run main (Dir [ (py "animation_graphs_old",
                     Dir [ (py "a.ron", File (py "(name: 'N', ty: 'T', inner: (x))"));
                           (py "c.txt", File (py "plain")) ]) ])
    = (Ok tt, w1)
    /\ main w1 = (Ok tt, World (fs w1) (console w1 ++ console w1)).
Proof.
  apply (@second_run_changes_nothing
           [ (py "animation_graphs_old",
              Dir [ (py "a.ron", File (py "(name: 'N', ty: 'T', inner: (x))"));
                    (py "c.txt", File (py "plain")) ]) ]
           [ (py "a.ron", File (py "(name: 'N', ty: 'T', inner: (x))"));
             (py "c.txt", File (py "plain")) ]).
  - reflexivity.
  - reflexivity.
  - repeat constructor; simpl; intros H;
      repeat (destruct H as [H|H]; [discriminate H|]); exact H.
  - reflexivity.
Defined.

(** X13.  The batch stops at the first entry it cannot process.  When
    the listing reaches a subdirectory whose name ends in [.ron], the run
    ends with [IsADirectoryError]: the files listed before it have been
    written and reported, the output directory holds their names, in some
    order, and no other, so nothing listed after it is written, and the
    completion line is not printed. *)
Theorem batch_stops_at_first_failure cwd done d sub rest :
  entry cwd (py "animation_graphs_old")
  = Some (Dir (done ++ (d, Dir sub) :: rest)) ->
  entry cwd (py "animation_graphs") = None ->
  NoDup (map fst (done ++ (d, Dir sub) :: rest)) ->
  ron_regular done = true -> endswith d (py ".ron") = true ->
  exists root',
    run main (Dir cwd)
    = (Raise IsADirectoryError,
       World root'
             (map (fun f => py "Transformed " ++ f)
                  (filter (fun n => endswith n (py ".ron")) (map fst done))))
    /\ (exists names,
          listdir root' output_directory = Ok names
          /\ Permutation names
               (filter (fun n => endswith n (py ".ron")) (map fst done)))
    /\ (forall f c,
          In (f, File c) done -> endswith f (py ".ron") = true ->
          read_file root' [py "animation_graphs"; f] = Ok (transform c)).
Proof.
  intros Hin Hout Hn Hr Hd.
  assert (Hn' : NoDup (map fst done)).
  { rewrite map_app in Hn. now apply NoDup_app_remove_r in Hn. }
  exists (with_output cwd (map output_entry (ron_files done))).
  destruct (outputs_facts cwd (ron_files done) Hout (ron_files_nodup _ Hn'))
    as (L & R & _).
  rewrite <- (ron_files_names_filter _ Hr), <- progress_lines.
  split; [|split; [eexists; split; [exact L | apply Permutation_refl]|]].
  - rewrite start_of_run with (es := done ++ (d, Dir sub) :: rest)
      by assumption.
    rewrite map_app, for_each_app.
    rewrite run_entries_of with (es := done ++ (d, Dir sub) :: rest);
      auto using incl_appl, incl_refl.
    rewrite fold_put_fresh; auto using ron_files_nodup.
    cbn [map fst]. rewrite for_each_cons.
    unfold process_entry. rewrite Hd.
    unfold transform_ron_file, bind, open_read, query, os_path_join,
      input_directory. cbn [fs app]. unfold read_file.
    rewrite stat_input with (es := done ++ (d, Dir sub) :: rest)
      by exact Hin.
    rewrite stat_cons, (@entry_nodup _ d (Dir sub) Hn)
      by (apply in_or_app; right; now left).
    reflexivity.
  - intros f c Hi He. apply R. now apply ron_files_in_conv.
Qed.

Lemma batch_stops_example :
  exists root',
    run main (Dir [ (py "animation_graphs_old",
                     Dir ([ (py "a.ron", File (py "first")) ]
                          ++ (py "d.ron", Dir [])
                          :: [ (py "b.ron", File (py "second")) ])) ])
    = (Raise IsADirectoryError,
       World root'
             (map (fun f => py "Transformed " ++ f)
                  (filter (fun n => endswith n (py ".ron"))
                          (map fst [ (py "a.ron", File (py "first")) ]))))
    /\ (exists names,
          listdir root' output_directory = Ok names
          /\ Permutation names
               (filter (fun n => endswith n (py ".ron"))
                       (map fst [ (py "a.ron", File (py "first")) ])))
    /\ (forall f c,
          In (f, File c) [ (py "a.ron", File (py "first")) ] ->
          endswith f (py ".ron") = true ->
          read_file root' [py "animation_graphs"; f] = Ok (transform c)).
Proof.
  apply (@batch_stops_at_first_failure
           [ (py "animation_graphs_old",
              Dir ([ (py "a.ron", File (py "first")) ]
                   ++ (py "d.ron", Dir [])
                   :: [ (py "b.ron", File (py "second")) ])) ]
           [ (py "a.ron", File (py "first")) ] (py "d.ron") []
           [ (py "b.ron", File (py "second")) ]).
  - reflexivity.
  - reflexivity.
  - repeat constructor; simpl; intros H;
      repeat (destruct H as [H|H]; [discriminate H|]); exact H.
  - reflexivity.
  - reflexivity.
Defined.

(** ** Rewritten nodes are stable *)

Lemma run_unique (P : char -> bool) a : forall a' c r c' r',
  forallb P a = true -> forallb P a' = true ->
  P c = false -> P c' = false ->
  a ++ c :: r = a' ++ c' :: r' -> a = a' /\ c = c' /\ r = r'.
Proof.
  induction a as [|x a IH]; intros [|x' a'] c r c' r' Ha Ha' Hc Hc' E;
    simpl in *.
  - injection E as -> ->. auto.
  - injection E as -> _. apply andb_prop in Ha'. destruct Ha' as [Hx _].
    congruence.
  - injection E as <- _. apply andb_prop in Ha. destruct Ha as [Hx _].
    congruence.
  - injection E as -> E.
    apply andb_prop in Ha, Ha'. destruct Ha as [_ Ha], Ha' as [_ Ha'].
    destruct (IH a' c r c' r' Ha Ha' Hc Hc' E) as (-> & -> & ->). auto.
Qed.

Lemma count_zero_forallb c t :
  count c t = 0 -> forallb (fun d => negb (N.eqb d c)) t = true.
Proof.
  induction t as [|d t IH]; intros H; [reflexivity|].
  rewrite count_cons in H. simpl.
  destruct (N.eqb c d) eqn:E; [lia|].
  rewrite N.eqb_sym, E. simpl. apply IH. lia.
Qed.

Lemma forallb_impl A (P Q : A -> bool) l :
  (forall x, P x = true -> Q x = true) ->
  forallb P l = true -> forallb Q l = true.
Proof.
  intros H. induction l as [|x l IH]; simpl; auto.
  intros Hl. apply andb_prop in Hl. destruct Hl as [Hx Hl].
  now rewrite (H x Hx), IH.
Qed.

Lemma space_is_plain c : isspace c = true -> plain c = true.
Proof.
  intros H. unfold plain.
  destruct (N.eqb c DQUOTE) eqn:E1.
  - apply N.eqb_eq in E1. subst. discriminate.
  - destruct (N.eqb c RPAREN) eqn:E2; auto.
    apply N.eqb_eq in E2. subst. discriminate.
Qed.

Lemma plain_run i :
  all_in (Except RPAREN) i = true -> count DQUOTE i = 0 ->
  forallb plain i = true.
Proof.
  unfold all_in. induction i as [|c i IH]; intros H1 H2; [reflexivity|].
  simpl in H1. apply andb_prop in H1. destruct H1 as [Hc H1].
  rewrite count_cons in H2. simpl. unfold plain at 1.
  destruct (N.eqb DQUOTE c) eqn:E; [lia|].
  rewrite N.eqb_sym, E, Hc. simpl. apply IH; auto; lia.
Qed.

Lemma no_match_at_inner i rest :
  all_in (Except RPAREN) i = true -> count DQUOTE i = 0 ->
  re_match pattern (py "(" ++ i ++ py ")" ++ rest) = None.
Proof.
  intros Hi Hq.
  destruct (re_match pattern (py "(" ++ i ++ py ")" ++ rest))
    as [[g r]|] eqn:M; auto. exfalso.
  apply re_match_pattern_iff in M. destruct M as (p' & Hp' & E & _).
  apply parts_ok_inv in Hp'.
  destruct Hp' as ((W1 & W2 & _) & _ & _).
  unfold fragment in E. rewrite <- !app_assoc in E.
  apply app_inv_head in E.
  rewrite (app_assoc (sp1 p')), (app_assoc (sp1 p' ++ py "name:")) in E.
  change (py ")" ++ rest) with (RPAREN :: rest) in E.
  change (py "'" ++ p_name p' ++ ?x) with (DQUOTE :: p_name p' ++ x) in E.
  apply (@run_unique plain) in E.
  - destruct E as (_ & E & _). discriminate.
  - now apply plain_run.
  - rewrite !forallb_app.
    rewrite (forallb_impl _ _ _ space_is_plain W1).
    rewrite (forallb_impl _ _ _ space_is_plain W2). reflexivity.
  - reflexivity.
  - reflexivity.
Qed.

Lemma no_match_at_rewritten p rest :
  all_in (Except DQUOTE) p.(p_name) = true ->
  re_match pattern (replace_node (caps_of p) ++ rest) = None.
Proof.
  intros Hn.
  destruct (re_match pattern (replace_node (caps_of p) ++ rest))
    as [[g r]|] eqn:M; auto. exfalso.
  apply re_match_pattern_iff in M. destruct M as (p' & Hp' & E & _).
  apply parts_ok_inv in Hp'.
  destruct Hp' as ((W1 & W2 & W3 & _) & (Pn & _) & _).
  rewrite replace_node_caps_of in E. unfold rewritten, fragment in E.
  change (py "(\n            name: '")
    with (py "(" ++ py "\n            " ++ py "name:" ++ py " " ++ py "'")
    in E.
  change (py "',\n            inner: {\n                '")
    with (py "'," ++ py "\n            "
          ++ py "inner: {\n                '") in E.
  rewrite <- !app_assoc in E.
  apply app_inv_head in E.
  apply (@span_unique Space) in E;
    [destruct E as [_ E] | reflexivity | assumption
    | reflexivity | reflexivity].
  apply app_inv_head in E.
  apply (@span_unique Space) in E;
    [destruct E as [_ E] | reflexivity | assumption
    | reflexivity | reflexivity].
  apply app_inv_head in E.
  apply (@span_unique (Except DQUOTE)) in E;
    [destruct E as [_ E] | assumption | assumption
    | reflexivity | reflexivity].
  apply app_inv_head in E.
  apply (@span_unique Space) in E;
    [destruct E as [_ E] | reflexivity | assumption
    | reflexivity | reflexivity].
  simpl in E. discriminate.
Qed.

Lemma transform_paren_free s : count LPAREN s = 0 -> transform s = s.
Proof.
  intros H. rewrite <- (app_nil_r s) at 1.
  rewrite transform_paren_free_prefix by exact H.
  now rewrite transform_nil, app_nil_r.
Qed.

Lemma rewritten_shape p rest :
  replace_node (caps_of p) ++ rest
  = LPAREN
      :: (py "\n            name: '" ++ p.(p_name)
          ++ py "',\n            inner: {\n                '" ++ p.(p_ty)
          ++ py "': ")
      ++ py "(" ++ p.(p_inner) ++ py ")" ++ py "\n            }" ++ rest.
Proof.
  rewrite replace_node_caps_of. unfold rewritten.
  rewrite <- !app_assoc. reflexivity.
Qed.

(** X14.  A rewritten node is left alone by a later transform: when the
    name, the type tag and the inner text of a node hold no opening
    parenthesis and the inner text holds no double quote, the replacement
    text is copied unchanged, whatever follows it; so transforming such a
    node twice gives the same text as transforming it once. *)
Theorem rewritten_node_is_stable p rest :
  parts_ok p = true ->
  count LPAREN p.(p_name) = 0 -> count LPAREN p.(p_ty) = 0 ->
  count LPAREN p.(p_inner) = 0 -> count DQUOTE p.(p_inner) = 0 ->
  transform (replace_node (caps_of p) ++ rest)
  = replace_node (caps_of p) ++ transform rest
  /\ (count LPAREN rest = 0 ->
      transform (transform (fragment p ++ rest))
      = transform (fragment p ++ rest)).
Proof.
  intros Hp Cn Ct Ci Cq.
  pose proof (parts_ok_inv _ Hp) as (_ & (Pn & _ & Pi) & _).
  assert (S : forall r,
             transform (replace_node (caps_of p) ++ r)
             = replace_node (caps_of p) ++ transform r).
  { intros r.
    pose proof (no_match_at_rewritten p r Pn) as M0.
    pose proof (no_match_at_inner (p_inner p)
                  (py "\n            }" ++ r) Pi Cq) as M1.
    rewrite (rewritten_shape p (transform r)).
    rewrite rewritten_shape in *.
    rewrite transform_copy by exact M0. f_equal.
    rewrite transform_paren_free_prefix
      by (count_literals; lia).
    f_equal.
    change (py "(" ++ ?x) with (LPAREN :: x) in *.
    rewrite transform_copy by exact M1. f_equal.
    rewrite transform_paren_free_prefix by exact Ci.
    f_equal; rewrite app_assoc, transform_paren_free_prefix by reflexivity;
      now rewrite <- app_assoc. }
  split; [apply S|].
  intros Cr. rewrite transform_fragment by exact Hp.
  rewrite <- replace_node_caps_of, S.
  now rewrite !(transform_paren_free _ Cr).
Qed.

Lemma rewritten_node_example :
  transform (replace_node [ (3, py "(x: 1)"); (2, py "T"); (1, py "A") ]
             ++ py ")")
  = replace_node [ (3, py "(x: 1)"); (2, py "T"); (1, py "A") ]
    ++ transform (py ")")
  /\ (count LPAREN (py ")") = 0 ->
      transform (transform (py "(name: 'A', ty: 'T', inner: (x: 1)" ++ py ")"))
      = transform (py "(name: 'A', ty: 'T', inner: (x: 1)" ++ py ")")).
Proof.
  exact (@rewritten_node_is_stable
           (Parts [] (py " ") (py " ") (py " ") (py " ") (py " ")
                  (py "A") (py "T") (py "x: 1")) (py ")")
           eq_refl eq_refl eq_refl eq_refl eq_refl).
Defined.

(** ** An input path that is not a directory *)



